(** * AutoKey trigger model and I/O mediator: a shallow embedding

    This development embeds the trigger-matching core of AutoKey
    ([lib/model.py]) and the outbound half of the I/O mediator
    ([lib/iomediator.py]) and checks the statements of the design
    specification against them.

    The code is Python 2: [str] values are byte strings, modelled as
    [string] (lists of [ascii]); case operations are the C-locale ones
    (ASCII letters only).  Objects live in a store addressed by
    references, so that the usage counters shared through [parent]
    pointers are updated in place.  Exceptions are values of [exn];
    the interpreter's recursion limit is the [depth] argument of the
    recursive methods. *)

From Stdlib Require Import ZArith String Ascii List Lia Bool Sorted.
From stdpp Require Import gmap strings list fin_maps sorting.

Local Open Scope Z_scope.
Local Open Scope string_scope.

(* Concatenation unfolds on constructors, as for lists. *)
Local Arguments String.append !_ _ : simpl nomatch.

(** ** Python values, exceptions *)

Inductive exn : Type :=
| TypeError
| ValueError
| KeyError (key : string)
| AttributeError
| RecursionError
| ReError.

Inductive result (A : Type) : Type :=
| Ok (a : A)
| Raise (e : exn).
Arguments Ok {A} a.
Arguments Raise {A} e.

Definition bind {A B : Type} (m : result A) (k : A → result B) : result B :=
  match m with
  | Ok a => k a
  | Raise e => Raise e
  end.

Notation "'let*' p ':=' m 'in' k" := (bind m (fun p => k))
  (at level 10, p pattern, m at level 100, k at level 200).

(** ** Byte strings *)

Module PyStr.

Definition len (s : string) : Z := Z.of_nat (String.length s).

Fixpoint map (f : ascii → ascii) (s : string) : string :=
  match s with
  | EmptyString => EmptyString
  | String c r => String (f c) (map f r)
  end.

Definition isupper_c (c : ascii) : bool :=
  let n := nat_of_ascii c in (65 <=? n)%nat && (n <=? 90)%nat.

Definition islower_c (c : ascii) : bool :=
  let n := nat_of_ascii c in (97 <=? n)%nat && (n <=? 122)%nat.

Definition tolower_c (c : ascii) : ascii :=
  if isupper_c c then ascii_of_nat (nat_of_ascii c + 32) else c.

Definition toupper_c (c : ascii) : ascii :=
  if islower_c c then ascii_of_nat (nat_of_ascii c - 32) else c.

(** [s.lower()], [s.upper()] *)
Definition lower : string → string := map tolower_c.
Definition upper : string → string := map toupper_c.

(** [s.capitalize()]: first byte upper-cased, the rest lower-cased. *)
Definition capitalize (s : string) : string :=
  match s with
  | EmptyString => EmptyString
  | String c r => String (toupper_c c) (lower r)
  end.

(** [s.isupper()]: no lower-case byte and at least one upper-case one. *)
Fixpoint isupper_from (cased : bool) (s : string) : bool :=
  match s with
  | EmptyString => cased
  | String c r =>
      if islower_c c then false
      else isupper_from (cased || isupper_c c) r
  end.
Definition isupper (s : string) : bool := isupper_from false s.

(** [s.islower()] *)
Fixpoint islower_from (cased : bool) (s : string) : bool :=
  match s with
  | EmptyString => cased
  | String c r =>
      if isupper_c c then false
      else islower_from (cased || islower_c c) r
  end.
Definition islower (s : string) : bool := islower_from false s.

(** [s.istitle()]: upper-case bytes only after uncased ones, lower-case
    bytes only after cased ones, and at least one cased byte. *)
Fixpoint istitle_from (previous_is_cased cased : bool) (s : string) : bool :=
  match s with
  | EmptyString => cased
  | String c r =>
      if isupper_c c then
        if previous_is_cased then false else istitle_from true true r
      else if islower_c c then
        if previous_is_cased then istitle_from true true r else false
      else istitle_from false cased r
  end.
Definition istitle (s : string) : bool := istitle_from false false s.

(** [s.startswith(p)] *)
Fixpoint startswith (s p : string) {struct p} : bool :=
  match p, s with
  | EmptyString, _ => true
  | String a p', String b s' => if Ascii.eqb a b then startswith s' p' else false
  | String _ _, EmptyString => false
  end.

(** [s[n:]] *)
Fixpoint drop (n : nat) (s : string) : string :=
  match n, s with
  | O, _ => s
  | S n', String _ r => drop n' r
  | S _, EmptyString => EmptyString
  end.

(** [s[:n]] *)
Fixpoint take (n : nat) (s : string) : string :=
  match n, s with
  | O, _ => EmptyString
  | S n', String c r => String c (take n' r)
  | S _, EmptyString => EmptyString
  end.

(** [s[a:b]] for [0 <= a], [0 <= b] *)
Definition slice (s : string) (a b : nat) : string := take (b - a) (drop a s).

(** [s[-1]] *)
Fixpoint last (s : string) : option ascii :=
  match s with
  | EmptyString => None
  | String c EmptyString => Some c
  | String _ r => last r
  end.

(** [s[:-1]] *)
Fixpoint init (s : string) : string :=
  match s with
  | EmptyString => EmptyString
  | String _ EmptyString => EmptyString
  | String c r => String c (init r)
  end.

(** The split of [s] around the occurrence of [sep] that starts
    furthest to the right, as [s.rfind(sep)] locates it. *)
Fixpoint rfind_split (sep s : string) : option (string * string) :=
  match s with
  | EmptyString => if startswith s sep then Some (EmptyString, EmptyString) else None
  | String c r =>
      match rfind_split sep r with
      | Some (b, a) => Some (String c b, a)
      | None =>
          if startswith s sep
          then Some (EmptyString, drop (String.length sep) s)
          else None
      end
  end.

(** [s.rpartition(sep)]: [TypeError] when [sep] is [None], [ValueError]
    ("empty separator") when it is empty; [("", "", s)] when [sep] does
    not occur. *)
Definition rpartition (s : string) (sep : option string)
  : result (string * string * string) :=
  match sep with
  | None => Raise TypeError
  | Some EmptyString => Raise ValueError
  | Some sep =>
      match rfind_split sep s with
      | Some (b, a) => Ok (b, sep, a)
      | None => Ok (EmptyString, EmptyString, s)
      end
  end.

(** The split of [s] around the leftmost occurrence of [sep]. *)
Fixpoint find_split (sep s : string) : option (string * string) :=
  if startswith s sep then Some (EmptyString, drop (String.length sep) s)
  else match s with
       | EmptyString => None
       | String c r =>
           match find_split sep r with
           | Some (b, a) => Some (String c b, a)
           | None => None
           end
       end.

(** [sub in s] *)
Definition contains (s sub : string) : bool :=
  match find_split sub s with Some _ => true | None => false end.

(** [s.split(sep)] for a non-empty [sep]: the pieces between the
    occurrences of [sep], found left to right without overlap. *)
Fixpoint split_fuel (fuel : nat) (sep s : string) : list string :=
  match fuel with
  | O => [s]
  | S fuel' =>
      match find_split sep s with
      | Some (b, a) => b :: split_fuel fuel' sep a
      | None => [s]
      end
  end.

Definition split (s : string) (sep : string) : result (list string) :=
  match sep with
  | EmptyString => Raise ValueError
  | _ => Ok (split_fuel (String.length s) sep s)
  end.

(** [s.count(sep)] for a non-empty [sep]. *)
Fixpoint count_fuel (fuel : nat) (sep s : string) : nat :=
  match fuel with
  | O => O
  | S fuel' =>
      match find_split sep s with
      | Some (_, a) => S (count_fuel fuel' sep a)
      | None => O
      end
  end.

Definition count (s sep : string) : nat := count_fuel (String.length s) sep s.

End PyStr.

(** ** Compiled regular expressions

    A pattern object as [re.compile] returns it: the source pattern and
    the behaviour of its [match] method (a match anchored at the start of
    the subject; the truth value of the result is what the callers use). *)

Record Regex : Type := mkRegex {
  pattern : string;
  re_match : string → bool
}.

(** ** [iomediator.py]: key names *)

Module Key.

Definition LEFT := "<left>".
Definition RIGHT := "<right>".
Definition UP := "<up>".
Definition DOWN := "<down>".
Definition BACKSPACE := "<backspace>".
Definition TAB := "<tab>".
Definition ENTER := "<enter>".
Definition SPACE := " ".
Definition SCROLL_LOCK := "<scroll_lock>".
Definition PRINT_SCREEN := "<print_screen>".
Definition PAUSE := "<pause>".
Definition MENU := "<menu>".

Definition CONTROL := "<ctrl>".
Definition ALT := "<alt>".
Definition ALT_GR := "<alt_gr>".
Definition SHIFT := "<shift>".
Definition SUPER := "<super>".
Definition CAPSLOCK := "<capslock>".
Definition NUMLOCK := "<numlock>".

Definition F1 := "<f1>".
Definition F2 := "<f2>".
Definition F3 := "<f3>".
Definition F4 := "<f4>".
Definition F5 := "<f5>".
Definition F6 := "<f6>".
Definition F7 := "<f7>".
Definition F8 := "<f8>".
Definition F9 := "<f9>".
Definition F10 := "<f10>".
Definition F11 := "<f11>".
Definition F12 := "<f12>".

Definition ESCAPE := "<escape>".
Definition INSERT := "<insert>".
Definition DELETE := "<delete>".
Definition HOME := "<home>".
Definition END := "<end>".
Definition PAGE_UP := "<page_up>".
Definition PAGE_DOWN := "<page_down>".

(** The strings among [klass.__dict__.values()]: the constants above
    and the class's [__module__] entry (the module is imported as
    [iomediator]); the other entries of the class dictionary ([is_key]
    itself, a [None] docstring) equal no string. *)
Definition values : list string :=
  [ LEFT; RIGHT; UP; DOWN; BACKSPACE; TAB; ENTER; SPACE; SCROLL_LOCK;
    PRINT_SCREEN; PAUSE; MENU; CONTROL; ALT; ALT_GR; SHIFT; SUPER;
    CAPSLOCK; NUMLOCK; F1; F2; F3; F4; F5; F6; F7; F8; F9; F10; F11; F12;
    ESCAPE; INSERT; DELETE; HOME; END; PAGE_UP; PAGE_DOWN; "iomediator" ].

Definition is_key (keyString : string) : bool :=
  bool_decide (PyStr.lower keyString ∈ values)
  || PyStr.startswith keyString "<code".

End Key.

Definition MODIFIERS : list string :=
  [Key.CONTROL; Key.ALT; Key.ALT_GR; Key.SHIFT; Key.SUPER; Key.CAPSLOCK; Key.NUMLOCK].
Definition NON_PRINTING_MODIFIERS : list string :=
  [Key.CONTROL; Key.ALT; Key.SUPER].
Definition NAVIGATION_KEYS : list string :=
  [Key.LEFT; Key.RIGHT; Key.UP; Key.DOWN; Key.BACKSPACE; Key.HOME; Key.END;
   Key.PAGE_UP; Key.PAGE_DOWN].

(** [KEY_SPLIT_RE = re.compile("(<[^<>]+>\+?)")] and its [split]. *)
Module KEY_SPLIT_RE.

Definition lt_c : ascii := "<"%char.
Definition gt_c : ascii := ">"%char.
Definition plus_c : ascii := "+"%char.

Definition is_angle (c : ascii) : bool := Ascii.eqb c lt_c || Ascii.eqb c gt_c.

(** The longest prefix of bytes other than [<] and [>], and the rest. *)
Fixpoint span_plain (s : string) : string * string :=
  match s with
  | EmptyString => (EmptyString, EmptyString)
  | String c r =>
      if is_angle c then (EmptyString, s)
      else let '(body, rest) := span_plain r in (String c body, rest)
  end.

(** A match of the pattern at the very start of [s]: the matched token
    and what follows it. *)
Definition match_here (s : string) : option (string * string) :=
  match s with
  | String c r =>
      if Ascii.eqb c lt_c then
        match span_plain r with
        | (String b body, String d rest) =>
            if Ascii.eqb d gt_c then
              match rest with
              | String e rest' =>
                  if Ascii.eqb e plus_c
                  then Some (String c (String b body
                                       +:+ String d (String e EmptyString)),
                             rest')
                  else Some (String c (String b body +:+ String d EmptyString), rest)
              | EmptyString =>
                  Some (String c (String b body +:+ String d EmptyString), rest)
              end
            else None
        | _ => None
        end
      else None
  | EmptyString => None
  end.

(** [lit] is the literal text read since the last token. *)
Fixpoint split_from (fuel : nat) (lit s : string) : list string :=
  match fuel with
  | O => [lit +:+ s]
  | S fuel' =>
      match s with
      | EmptyString => [lit]
      | String c r =>
          match match_here s with
          | Some (tok, rest) => lit :: tok :: split_from fuel' EmptyString rest
          | None => split_from fuel' (lit +:+ String c EmptyString) r
          end
      end
  end.

Definition split (s : string) : list string :=
  split_from (String.length s) EmptyString s.

End KEY_SPLIT_RE.

(** ** [model.py]: trigger configuration *)

Inductive TriggerMode : Type := NONE | ABBREVIATION | PREDICTIVE | HOTKEY.

Global Instance TriggerMode_eq_dec : EqDecision TriggerMode.
Proof. solve_decision. Defined.

(** [mode in modes] *)
Definition mode_in (mode : TriggerMode) (modes : list TriggerMode) : bool :=
  bool_decide (mode ∈ modes).

Module AbstractAbbreviation.

Record t : Type := mk {
  abbreviation : option string;
  backspace : bool;
  ignoreCase : bool;
  immediate : bool;
  triggerInside : bool;
  wordChars : Regex
}.

Definition _partition_input (self : t) (currentString : string)
  : result (string * string * string) :=
  if ignoreCase self then
    let matchString := PyStr.lower currentString in
    let* (stringBefore, typedAbbr, stringAfter) :=
      PyStr.rpartition matchString (abbreviation self) in
    let abbrStart := String.length stringBefore in
    let abbrEnd := (abbrStart + String.length typedAbbr)%nat in
    let typedAbbr := PyStr.slice currentString abbrStart abbrEnd in
    Ok (stringBefore, typedAbbr, stringAfter)
  else
    PyStr.rpartition currentString (abbreviation self).

(** [stringBefore[-1]] as a one-byte string, for a non-empty
    [stringBefore]. *)
Definition last_str (s : string) : string :=
  match PyStr.last s with
  | Some c => String c EmptyString
  | None => EmptyString
  end.

Definition _should_trigger_abbreviation (self : t) (buffer : string)
  : result bool :=
  let* (stringBefore, typedAbbr, stringAfter) := _partition_input self buffer in
  (* "Check chars ahead of abbr" *)
  let check_before : result bool :=
    if (0 <? String.length stringBefore)%nat then
      if re_match (wordChars self) (last_str stringBefore) then
        if negb (triggerInside self) then Ok false else Ok true
      else Ok true
    else Ok true
  in
  if (0 <? String.length typedAbbr)%nat then
    if negb (immediate self) then
      if (String.length stringAfter =? 1)%nat then
        if re_match (wordChars self) stringAfter then Ok false
        else if (1 <? String.length stringAfter)%nat then Ok false
        else check_before
      else Ok false
    else
      if (0 <? String.length stringAfter)%nat then Ok false
      else check_before
  else Ok false.

End AbstractAbbreviation.

Module AbstractWindowFilter.

Record t : Type := mk {
  windowTitleRegex : option Regex
}.

Definition _should_trigger_window_title (self : t) (windowTitle : string) : bool :=
  match windowTitleRegex self with
  | Some re => re_match re windowTitle
  | None => true
  end.

End AbstractWindowFilter.

Module AbstractHotkey.

Record t : Type := mk {
  filter : AbstractWindowFilter.t;
  modifiers : list string;
  hotKey : option string
}.

(** [modifiers.sort()] on a list of key names: the stable merge sort by
    the byte order of strings. *)
Definition sort (modifiers : list string) : list string :=
  merge_sort String.le modifiers.

Definition set_hotkey (self : t) (modifiers : list string) (key : option string) : t :=
  let modifiers := sort modifiers in
  mk (filter self) modifiers key.

Definition check_hotkey (self : t) (modifiers' : list string) (key : string)
    (windowTitle : string) : bool :=
  if bool_decide (hotKey self ≠ None)
     && AbstractWindowFilter._should_trigger_window_title (filter self) windowTitle
  then bool_decide (modifiers self = modifiers')
       && bool_decide (hotKey self = Some key)
  else false.

End AbstractHotkey.

(** ** [model.py]: the trigger tree

    Folders, phrases and scripts are objects of a store; [parent] holds a
    reference.  Methods that update counters take the store and return
    the updated one. *)

Definition ref : Type := nat.

Module Expansion.

Record t : Type := mk {
  string : String.string;
  lefts : Z;
  backspaces : Z
}.

(** [Expansion(string)] *)
Definition init (s : String.string) : t := mk s 0 0.

Definition set_string (e : t) (s : String.string) : t := mk s (lefts e) (backspaces e).
Definition set_lefts (e : t) (n : Z) : t := mk (string e) n (backspaces e).
Definition set_backspaces (e : t) (n : Z) : t := mk (string e) (lefts e) n.

End Expansion.

Module FolderObj.
Record t : Type := mk {
  abbr : AbstractAbbreviation.t;
  hotkey : AbstractHotkey.t;
  title : string;
  folders : list ref;
  items : list ref;
  modes : list TriggerMode;
  usageCount : Z;
  showInTrayMenu : bool;
  parent : option ref
}.
Definition set_usageCount (f : t) (n : Z) : t :=
  mk (abbr f) (hotkey f) (title f) (folders f) (items f) (modes f) n
     (showInTrayMenu f) (parent f).
End FolderObj.

Module PhraseObj.
Record t : Type := mk {
  abbr : AbstractAbbreviation.t;
  hotkey : AbstractHotkey.t;
  description : string;
  phrase : string;
  modes : list TriggerMode;
  usageCount : Z;
  prompt : bool;
  omitTrigger : bool;
  matchCase : bool;
  parent : option ref;
  showInTrayMenu : bool;
  sendMode : option string
}.
Definition set_usageCount (p : t) (n : Z) : t :=
  mk (abbr p) (hotkey p) (description p) (phrase p) (modes p) n (prompt p)
     (omitTrigger p) (matchCase p) (parent p) (showInTrayMenu p) (sendMode p).
End PhraseObj.

Module ScriptObj.
Record t : Type := mk {
  abbr : AbstractAbbreviation.t;
  hotkey : AbstractHotkey.t;
  description : string;
  code : string;
  store : gmap string string;
  modes : list TriggerMode;
  usageCount : Z;
  prompt : bool;
  omitTrigger : bool;
  parent : option ref;
  showInTrayMenu : bool
}.
Definition set_usageCount (s : t) (n : Z) : t :=
  mk (abbr s) (hotkey s) (description s) (code s) (store s) (modes s) n
     (prompt s) (omitTrigger s) (parent s) (showInTrayMenu s).
End ScriptObj.

Inductive obj : Type :=
| OFolder (f : FolderObj.t)
| OPhrase (p : PhraseObj.t)
| OScript (s : ScriptObj.t).

(** [len(self.abbreviation)] *)
Definition len_abbreviation (a : option string) : result Z :=
  match a with
  | Some s => Ok (PyStr.len s)
  | None => Raise TypeError
  end.

(** [self.parent.m(...)]: the receiver must be there. *)
Definition the_parent (parent : option ref) : result ref :=
  match parent with
  | Some r => Ok r
  | None => Raise AttributeError
  end.

Module Folder.
Import FolderObj.

Definition get (h : gmap ref obj) (self : ref) : result t :=
  match h !! self with
  | Some (OFolder f) => Ok f
  | _ => Raise AttributeError
  end.

Fixpoint increment_usage_count (depth : nat) (h : gmap ref obj) (self : ref)
  : result (gmap ref obj) :=
  match depth with
  | O => Raise RecursionError
  | S depth' =>
      let* f := get h self in
      let h := <[self := OFolder (set_usageCount f (usageCount f + 1))]> h in
      match parent f with
      | Some p => increment_usage_count depth' h p
      | None => Ok h
      end
  end.

Fixpoint get_backspace_count (depth : nat) (h : gmap ref obj) (self : ref)
    (buffer : string) : result Z :=
  match depth with
  | O => Raise RecursionError
  | S depth' =>
      let* f := get h self in
      let otherwise : result Z :=
        match parent f with
        | Some p => get_backspace_count depth' h p buffer
        | None => Ok 0
        end
      in
      if mode_in ABBREVIATION (modes f) && AbstractAbbreviation.backspace (abbr f) then
        let* fires := AbstractAbbreviation._should_trigger_abbreviation (abbr f) buffer in
        if fires then
          let* (stringBefore, typedAbbr, stringAfter) :=
            AbstractAbbreviation._partition_input (abbr f) buffer in
          let* n := len_abbreviation (AbstractAbbreviation.abbreviation (abbr f)) in
          Ok (n + PyStr.len stringAfter)
        else otherwise
      else otherwise
  end.

Fixpoint calculate_input (depth : nat) (h : gmap ref obj) (self : ref)
    (buffer : string) : result Z :=
  match depth with
  | O => Raise RecursionError
  | S depth' =>
      let* f := get h self in
      let otherwise : result Z :=
        match parent f with
        | Some p => calculate_input depth' h p buffer
        | None => Ok 0
        end
      in
      if mode_in ABBREVIATION (modes f) && AbstractAbbreviation.backspace (abbr f) then
        let* fires := AbstractAbbreviation._should_trigger_abbreviation (abbr f) buffer in
        if fires then
          let* n := len_abbreviation (AbstractAbbreviation.abbreviation (abbr f)) in
          if AbstractAbbreviation.immediate (abbr f) then Ok n else Ok (n + 1)
        else otherwise
      else otherwise
  end.

Definition check_input (f : t) (buffer windowName : string) : result bool :=
  if mode_in ABBREVIATION (modes f) then
    let* fires := AbstractAbbreviation._should_trigger_abbreviation (abbr f) buffer in
    Ok (fires && AbstractWindowFilter._should_trigger_window_title
                    (AbstractHotkey.filter (hotkey f)) windowName)
  else Ok false.

End Folder.

Module Phrase.
Import PhraseObj.

Definition get (h : gmap ref obj) (self : ref) : result t :=
  match h !! self with
  | Some (OPhrase p) => Ok p
  | _ => Raise AttributeError
  end.

Definition check_input (p : t) (buffer windowName : string) : result bool :=
  if AbstractWindowFilter._should_trigger_window_title
       (AbstractHotkey.filter (hotkey p)) windowName
  then
    let* abbr :=
      if mode_in ABBREVIATION (modes p)
      then AbstractAbbreviation._should_trigger_abbreviation (abbr p) buffer
      else Ok false
    in
    let predict := false in
    Ok (abbr || predict)
  else Ok false.

(** The case transformation of [build_phrase] ("if self.matchCase"). *)
Definition match_case (typedAbbr : string) (expansion : Expansion.t) : Expansion.t :=
  if PyStr.istitle typedAbbr then
    Expansion.set_string expansion (PyStr.capitalize (Expansion.string expansion))
  else if PyStr.isupper typedAbbr then
    Expansion.set_string expansion (PyStr.upper (Expansion.string expansion))
  else if PyStr.islower typedAbbr then
    Expansion.set_string expansion (PyStr.lower (Expansion.string expansion))
  else expansion.

Definition build_phrase (depth : nat) (h : gmap ref obj) (self : ref)
    (buffer : string) : result (gmap ref obj * Expansion.t) :=
  let* p := get h self in
  let h := <[self := OPhrase (set_usageCount p (usageCount p + 1))]> h in
  let* up := the_parent (parent p) in
  let* h := Folder.increment_usage_count depth h up in
  let expansion := Expansion.init (phrase p) in
  let triggerFound := false in
  let* (expansion, triggerFound) :=
    if mode_in ABBREVIATION (modes p) then
      let* fires := AbstractAbbreviation._should_trigger_abbreviation (abbr p) buffer in
      if fires then
        let* (stringBefore, typedAbbr, stringAfter) :=
          AbstractAbbreviation._partition_input (abbr p) buffer in
        let triggerFound := true in
        let* expansion :=
          if AbstractAbbreviation.backspace (abbr p) then
            let* n := len_abbreviation (AbstractAbbreviation.abbreviation (abbr p)) in
            Ok (Expansion.set_backspaces expansion (n + PyStr.len stringAfter))
          else
            Ok (Expansion.set_backspaces expansion (PyStr.len stringAfter))
        in
        let expansion :=
          if negb (omitTrigger p)
          then Expansion.set_string expansion (Expansion.string expansion +:+ stringAfter)
          else expansion
        in
        let expansion :=
          if matchCase p then match_case typedAbbr expansion else expansion
        in
        Ok (expansion, triggerFound)
      else Ok (expansion, triggerFound)
    else Ok (expansion, triggerFound)
  in
  let* expansion :=
    if negb triggerFound then
      let* n := Folder.get_backspace_count depth h up buffer in
      Ok (Expansion.set_backspaces expansion n)
    else Ok expansion
  in
  Ok (h, expansion).

Definition calculate_input (depth : nat) (h : gmap ref obj) (self : ref)
    (buffer : string) : result Z :=
  let* p := get h self in
  let otherwise : result Z :=
    if mode_in HOTKEY (modes p) && bool_decide (buffer = EmptyString)
    then Ok (Z.of_nat (List.length (AbstractHotkey.modifiers (hotkey p))) + 1)
    else
      let* up := the_parent (parent p) in
      Folder.calculate_input depth h up buffer
  in
  if mode_in ABBREVIATION (modes p) then
    let* fires := AbstractAbbreviation._should_trigger_abbreviation (abbr p) buffer in
    if fires then
      let* n := len_abbreviation (AbstractAbbreviation.abbreviation (abbr p)) in
      if AbstractAbbreviation.immediate (abbr p) then Ok n else Ok (n + 1)
    else otherwise
  else otherwise.

Definition get_trigger_chars (p : t) (buffer : string) : result string :=
  let* (stringBefore, typedAbbr, stringAfter) :=
    AbstractAbbreviation._partition_input (abbr p) buffer in
  Ok (typedAbbr +:+ stringAfter).

Section CursorToken.

(** The marker is a constant of [configmanager], which is imported
    but not part of the sources at hand. *)
Variable CURSOR_POSITION_TOKEN : string.

(** [section in [' ', '\n']] *)
Definition blank (section : string) : bool :=
  bool_decide (section ∈ [" "; String (ascii_of_nat 10) EmptyString]).

(** The loop over [KEY_SPLIT_RE.split(secondpart)]. *)
Definition count_lefts (secondpart : string) (expansion : Expansion.t) : Expansion.t :=
  fold_left
    (fun expansion section =>
       if negb (Key.is_key section) || blank section
       then Expansion.set_lefts expansion
              (Expansion.lefts expansion + PyStr.len section)
       else expansion)
    (KEY_SPLIT_RE.split secondpart) expansion.

Definition parsePositionTokens (expansion : Expansion.t) : result Expansion.t :=
  if PyStr.contains (Expansion.string expansion) CURSOR_POSITION_TOKEN then
    let* parts := PyStr.split (Expansion.string expansion) CURSOR_POSITION_TOKEN in
    match parts with
    | [firstpart; secondpart] =>
        let foundNavigationKey :=
          existsb (fun key => PyStr.contains (Expansion.string expansion) key)
                  NAVIGATION_KEYS in
        let expansion :=
          if foundNavigationKey then Expansion.set_lefts expansion 0 else expansion in
        let expansion :=
          if negb foundNavigationKey then count_lefts secondpart expansion
          else expansion in
        Ok (Expansion.set_string expansion (firstpart +:+ secondpart))
    | _ => Raise ValueError
    end
  else Ok expansion.

End CursorToken.

End Phrase.

Module Script.
Import ScriptObj.

Definition get (h : gmap ref obj) (self : ref) : result t :=
  match h !! self with
  | Some (OScript s) => Ok s
  | _ => Raise AttributeError
  end.

Definition check_input (s : t) (buffer windowName : string) : result bool :=
  if AbstractWindowFilter._should_trigger_window_title
       (AbstractHotkey.filter (hotkey s)) windowName
  then
    if mode_in ABBREVIATION (modes s)
    then AbstractAbbreviation._should_trigger_abbreviation (abbr s) buffer
    else Ok false
  else Ok false.

Definition process_buffer (depth : nat) (h : gmap ref obj) (self : ref)
    (buffer : string) : result (gmap ref obj * (Z * string)) :=
  let* s := get h self in
  let h := <[self := OScript (set_usageCount s (usageCount s + 1))]> h in
  let* up := the_parent (parent s) in
  let* h := Folder.increment_usage_count depth h up in
  let triggerFound := false in
  let backspaces := 0 in
  let string := EmptyString in
  let* (backspaces, string, triggerFound) :=
    if mode_in ABBREVIATION (modes s) then
      let* fires := AbstractAbbreviation._should_trigger_abbreviation (abbr s) buffer in
      if fires then
        let* (stringBefore, typedAbbr, stringAfter) :=
          AbstractAbbreviation._partition_input (abbr s) buffer in
        let triggerFound := true in
        let* backspaces :=
          if AbstractAbbreviation.backspace (abbr s) then
            let* n := len_abbreviation (AbstractAbbreviation.abbreviation (abbr s)) in
            Ok (n + PyStr.len stringAfter)
          else Ok (PyStr.len stringAfter)
        in
        let string := if negb (omitTrigger s) then string +:+ stringAfter else string in
        Ok (backspaces, string, triggerFound)
      else Ok (backspaces, string, triggerFound)
    else Ok (backspaces, string, triggerFound)
  in
  let* backspaces :=
    if negb triggerFound then Folder.get_backspace_count depth h up buffer
    else Ok backspaces
  in
  Ok (h, (backspaces, string)).

End Script.

(** ** [model.py]: loading persisted items

    The persisted form is what the [json] module hands over: [None],
    booleans, integers, strings, lists and dictionaries.  Loading assigns
    most attributes without looking at them, so the loaded attributes are
    kept as such values. *)

#[warnings="-register-all"] Inductive json : Type :=
| JNull
| JBool (b : bool)
| JNum (n : Z)
| JStr (s : string)
| JList (l : list json)
| JObj (m : gmap string json).

Module SendMode.
Definition KEYBOARD : json := JStr "kb".
Definition CB_CTRL_V : json := JStr (Key.CONTROL +:+ "+v").
Definition CB_CTRL_SHIFT_V : json := JStr (Key.CONTROL +:+ "+" +:+ Key.SHIFT +:+ "+v").
Definition CB_SHIFT_INSERT : json := JStr (Key.SHIFT +:+ "+" +:+ Key.INSERT).
Definition SELECTION : json := JNull.
End SendMode.

Module Py.

(** [data[key]] for a string [key] *)
Definition getitem (data : json) (key : string) : result json :=
  match data with
  | JObj m =>
      match m !! key with
      | Some v => Ok v
      | None => Raise (KeyError key)
      end
  | _ => Raise TypeError
  end.

(** [key in data] for a string [key] *)
Definition contains (data : json) (key : string) : result bool :=
  match data with
  | JObj m => Ok (bool_decide (is_Some (m !! key)))
  | JStr s => Ok (PyStr.contains s key)
  | JList l =>
      Ok (existsb (fun v => match v with JStr s => String.eqb s key | _ => false end) l)
  | _ => Raise TypeError
  end.

(** The default ordering of CPython 2 between values: [None] first,
    then numbers, then the other types by type name; strings by their
    bytes.  Two lists or two dictionaries are left in the order they
    come (their comparison is not modelled). *)
Definition rank (v : json) : nat :=
  match v with
  | JNull => 0 | JBool _ | JNum _ => 1 | JObj _ => 2 | JList _ => 3 | JStr _ => 4
  end.

Definition num (v : json) : Z :=
  match v with
  | JBool b => if b then 1 else 0
  | JNum n => n
  | _ => 0
  end.

Definition leb (a b : json) : bool :=
  match a, b with
  | JStr s, JStr t => String.leb s t
  | _, _ =>
      if (rank a =? rank b)%nat then
        if (rank a =? 1)%nat then (num a <=? num b)%Z else true
      else (rank a <? rank b)%nat
  end.

Fixpoint insert_sorted (x : json) (l : list json) : list json :=
  match l with
  | [] => [x]
  | y :: l' => if leb y x then y :: insert_sorted x l' else x :: l
  end.

(** The list after [l.sort()] *)
Definition sorted (l : list json) : list json :=
  fold_left (fun acc x => insert_sorted x acc) l [].

(** [v.sort()]: only lists have the method. *)
Definition sort (v : json) : result json :=
  match v with
  | JList l => Ok (JList (sorted l))
  | _ => Raise AttributeError
  end.

End Py.

Definition get_value_or_default (jsonData : json) (key : string) (default : json)
  : result json :=
  let* present := Py.contains jsonData key in
  if present then Py.getitem jsonData key else Ok default.

Module Load.
Section Load.

(** [re.compile(pattern, re.UNICODE)] for a string [pattern]; the
    regular-expression engine is the standard library's. *)
Variable re_compile : string → result Regex.

Definition compile (regex : json) : result Regex :=
  match regex with
  | JStr s => re_compile s
  | _ => Raise TypeError
  end.

(** The attributes [AbstractAbbreviation.load_from_serialized] sets. *)
Record abbreviation_attrs : Type := mk_abbreviation {
  abbreviation : json;
  backspace : json;
  ignoreCase : json;
  immediate : json;
  triggerInside : json;
  wordChars : Regex
}.

Definition AbstractAbbreviation_load_from_serialized (data : json)
  : result abbreviation_attrs :=
  let* abbreviation := Py.getitem data "abbreviation" in
  let* backspace := Py.getitem data "backspace" in
  let* ignoreCase := Py.getitem data "ignoreCase" in
  let* immediate := Py.getitem data "immediate" in
  let* triggerInside := Py.getitem data "triggerInside" in
  let* regex := Py.getitem data "wordChars" in
  let* wordChars := compile regex in
  Ok (mk_abbreviation abbreviation backspace ignoreCase immediate triggerInside
                      wordChars).

(** The attributes [AbstractHotkey.set_hotkey] sets. *)
Record hotkey_attrs : Type := mk_hotkey {
  modifiers : json;
  hotKey : json
}.

Definition set_hotkey (modifiers key : json) : result hotkey_attrs :=
  let* modifiers := Py.sort modifiers in
  Ok (mk_hotkey modifiers key).

Definition AbstractHotkey_load_from_serialized (data : json) : result hotkey_attrs :=
  let* modifiers := Py.getitem data "modifiers" in
  let* key := Py.getitem data "hotKey" in
  set_hotkey modifiers key.

(** [set_window_titles], reached through
    [AbstractWindowFilter.load_from_serialized]: the new
    [windowTitleRegex]. *)
Definition set_window_titles (regex : json) : result (option Regex) :=
  match regex with
  | JNull => Ok None
  | _ => let* re := compile regex in Ok (Some re)
  end.

Definition AbstractWindowFilter_load_from_serialized (pattern : json)
  : result (option Regex) :=
  set_window_titles pattern.

(** The attributes of a phrase after [Phrase.load_from_serialized]. *)
Record phrase_attrs : Type := mk_phrase {
  description : json;
  phrase : json;
  modes : json;
  usageCount : json;
  prompt : json;
  omitTrigger : json;
  matchCase : json;
  parent : option ref;
  showInTrayMenu : json;
  sendMode : json;
  abbr : abbreviation_attrs;
  hotkey : hotkey_attrs;
  windowTitleRegex : option Regex
}.

Definition Phrase_load_from_serialized (data : json) (parent : option ref)
  : result phrase_attrs :=
  let* description := Py.getitem data "description" in
  let* phrase := Py.getitem data "phrase" in
  let* modes := Py.getitem data "modes" in
  let* usageCount := Py.getitem data "usageCount" in
  let* prompt := Py.getitem data "prompt" in
  let* omitTrigger := Py.getitem data "omitTrigger" in
  let* matchCase := Py.getitem data "matchCase" in
  let* showInTrayMenu := Py.getitem data "showInTrayMenu" in
  let* sendMode := get_value_or_default data "sendMode" SendMode.KEYBOARD in
  let* abbreviation_data := Py.getitem data "abbreviation" in
  let* abbr := AbstractAbbreviation_load_from_serialized abbreviation_data in
  let* hotkey_data := Py.getitem data "hotkey" in
  let* hotkey := AbstractHotkey_load_from_serialized hotkey_data in
  let* filter_data := Py.getitem data "filter" in
  let* windowTitleRegex := AbstractWindowFilter_load_from_serialized filter_data in
  Ok (mk_phrase description phrase modes usageCount prompt omitTrigger matchCase
                parent showInTrayMenu sendMode abbr hotkey windowTitleRegex).

End Load.
End Load.

(** ** [iomediator.py]: modifier tracking and outbound operations

    The interface (backend) is an external collaborator: the model keeps
    the sequence of calls it receives, oldest first. *)

Module IoMediator.

Inductive call : Type :=
| release_key (modifier : string)
| press_key (modifier : string)
| send_key (keyName : string)
| send_string_call (s : string)
| send_modified_key (keyName : string) (modifiers : list string)
| send_string_clipboard (s : string)
| lock_acquire
| lock_release.

Global Instance call_eq_dec : EqDecision call.
Proof. solve_decision. Defined.

Record t : Type := mk {
  modifiers : gmap string bool;
  releasedModifiers : list string;
  interface : list call
}.

(** [IoMediator.__init__]: the modifier table *)
Definition initial_modifiers : gmap string bool :=
  <[Key.CONTROL := false]> (<[Key.ALT := false]> (<[Key.ALT_GR := false]>
  (<[Key.SHIFT := false]> (<[Key.SUPER := false]> (<[Key.CAPSLOCK := false]>
  (<[Key.NUMLOCK := true]> ∅)))))).

Definition invoke (self : t) (c : call) : t :=
  mk (modifiers self) (releasedModifiers self) (interface self ++ [c]).

(** [modifier in (Key.CAPSLOCK, Key.NUMLOCK)] *)
Definition is_toggle (modifier : string) : bool :=
  bool_decide (modifier ∈ [Key.CAPSLOCK; Key.NUMLOCK]).

Definition handle_modifier_down (self : t) (modifier : string) : result t :=
  if is_toggle modifier then
    match (modifiers self !! modifier : option bool) with
    | Some held =>
        if held
        then Ok (mk (<[modifier := false]> (modifiers self))
                    (releasedModifiers self) (interface self))
        else Ok (mk (<[modifier := true]> (modifiers self))
                    (releasedModifiers self) (interface self))
    | None => Raise (KeyError modifier)
    end
  else
    Ok (mk (<[modifier := true]> (modifiers self))
           (releasedModifiers self) (interface self)).

Definition handle_modifier_up (self : t) (modifier : string) : t :=
  if negb (is_toggle modifier)
  then mk (<[modifier := false]> (modifiers self))
          (releasedModifiers self) (interface self)
  else self.

Definition acquire_lock (self : t) : t := invoke self lock_acquire.
Definition release_lock (self : t) : t := invoke self lock_release.

(** The loop of [__clearModifiers] visits the table's entries; the order
    of [keys()] is the order of [map_to_list]. *)
Definition __clearModifiers (self : t) : t :=
  let self := mk (modifiers self) [] (interface self) in
  fold_left
    (fun (self : t) (entry : string * bool) =>
       let '(modifier, held) := entry in
       if held && negb (is_toggle modifier) then
         invoke (mk (modifiers self) (releasedModifiers self ++ [modifier])
                    (interface self))
                (release_key modifier)
       else self)
    (map_to_list (modifiers self)) self.

Definition __reapplyModifiers (self : t) : t :=
  fold_left (fun (self : t) modifier => invoke self (press_key modifier))
            (releasedModifiers self) self.

(** [section[0]], [section[1:]] for a non-empty [section] *)
Definition first_str (section : string) : string := PyStr.take 1 section.
Definition rest_str (section : string) : string := PyStr.drop 1 section.

(** The body of the [if len(section) > 0] of [send_string]; [modifiers]
    is the local list of pending modifier tokens. *)
Definition send_section (self : t) (modifiers : list string) (section : string)
  : t * list string :=
  if Key.is_key (PyStr.init section)
     && bool_decide (PyStr.last section = Some KEY_SPLIT_RE.plus_c)
     && bool_decide (PyStr.init section ∈ MODIFIERS)
  then (self, (modifiers ++ [PyStr.init section])%list)
  else
    if (0 <? List.length modifiers)%nat then
      if Key.is_key section then
        (invoke self (send_modified_key section modifiers), modifiers)
      else
        let self := invoke self (send_modified_key (first_str section) modifiers) in
        let self :=
          if (1 <? String.length section)%nat
          then invoke self (send_string_call (rest_str section))
          else self in
        (self, [])
    else
      if Key.is_key section
      then (invoke self (send_key section), modifiers)
      else (invoke self (send_string_call section), modifiers).

(** One turn of the [for section in KEY_SPLIT_RE.split(string)] loop. *)
Definition send_string_step (st : t * list string) (section : string)
  : t * list string :=
  let '(self, modifiers) := st in
  let '(self, modifiers) :=
    if (0 <? String.length section)%nat
    then send_section self modifiers section
    else (self, modifiers) in
  (__reapplyModifiers self, modifiers).

Definition send_string (self : t) (string : String.string) : t :=
  if (String.length string =? 0)%nat then self
  else
    let self := acquire_lock self in
    let self := __clearModifiers self in
    let modifiers : list String.string := [] in
    let '(self, modifiers) :=
      fold_left send_string_step (KEY_SPLIT_RE.split string) (self, modifiers) in
    release_lock self.

Definition paste_string (self : t) (string : String.string) : t :=
  if (0 <? String.length string)%nat
  then release_lock (invoke (acquire_lock self) (send_string_clipboard string))
  else self.

(** [for i in range(count): self.interface.send_key(Key.BACKSPACE)] *)
Definition send_backspace (self : t) (count : Z) : t :=
  Nat.iter (Z.to_nat count) (fun (self : t) => invoke self (send_key Key.BACKSPACE)) self.

Definition remove_string (self : t) (string : String.string) : t :=
  let backspaces :=
    fold_left
      (fun (backspaces : Z) (section : String.string) =>
         if Key.is_key section then backspaces + 1
         else backspaces + PyStr.len section)
      (KEY_SPLIT_RE.split string) (-1) in
  send_backspace self backspaces.

End IoMediator.

(** ** Vocabulary of the specification *)

(** [sub] occurs in [s], with [before] in front of it and [after] behind. *)
Definition occurs_at (sub s before after : string) : Prop :=
  s = before +:+ sub +:+ after.

Definition occurs (sub s : string) : Prop :=
  ∃ before after, occurs_at sub s before after.

(** The occurrence that starts furthest to the right. *)
Definition last_occurrence (sub s before after : string) : Prop :=
  occurs_at sub s before after ∧
  ∀ before' after', occurs_at sub s before' after' →
    (String.length before' ≤ String.length before)%nat.

(** The text [_partition_input] searches. *)
Definition searched (self : AbstractAbbreviation.t) (buffer : string) : string :=
  if AbstractAbbreviation.ignoreCase self then PyStr.lower buffer else buffer.

(** The case fold of section 4.3, step 1, which a search under
    [ignoreCase] applies to both of its sides. *)
Definition folded (self : AbstractAbbreviation.t) (s : string) : string :=
  if AbstractAbbreviation.ignoreCase self then PyStr.lower s else s.

(** The configured abbreviation is its own case fold: any abbreviation
    without [ignoreCase]; with it, one written in lower case. *)
Definition folded_abbreviation (self : AbstractAbbreviation.t) : Prop :=
  ∀ a, AbstractAbbreviation.abbreviation self = Some a → folded self a = a.

(** A character matches [wordCharPattern]. *)
Definition word_char (self : AbstractAbbreviation.t) (c : ascii) : bool :=
  re_match (AbstractAbbreviation.wordChars self) (String c EmptyString).

(** Steps 3 to 5 of the abbreviation rule, on a partition. *)
Definition boundary_rule (self : AbstractAbbreviation.t) (before after : string) : Prop :=
  (if AbstractAbbreviation.immediate self
   then after = EmptyString
   else ∃ c, after = String c EmptyString ∧ word_char self c = false) ∧
  (∀ c, PyStr.last before = Some c → word_char self c = true →
        AbstractAbbreviation.triggerInside self = true).

(** The abbreviation trigger of an item succeeds: abbreviation mode is
    enabled and the check returns true. *)
Definition trigger_succeeds (modes : list TriggerMode) (abbr : AbstractAbbreviation.t)
    (buffer : string) : Prop :=
  mode_in ABBREVIATION modes = true ∧
  AbstractAbbreviation._should_trigger_abbreviation abbr buffer = Ok true.

(** Steps 3 to 5 as the Boolean the method computes. *)
Definition boundary_check (self : AbstractAbbreviation.t) (before after : string) : bool :=
  (if AbstractAbbreviation.immediate self
   then (String.length after =? 0)%nat
   else (String.length after =? 1)%nat
        && negb (re_match (AbstractAbbreviation.wordChars self) after))
  && negb ((0 <? String.length before)%nat
           && re_match (AbstractAbbreviation.wordChars self)
                (AbstractAbbreviation.last_str before)
           && negb (AbstractAbbreviation.triggerInside self)).

(** The trigger rule of section 4.3 for one configuration and buffer.
    The abbreviation is looked for in the buffer as step 1 says: as they
    are, or both case-folded when [ignoreCase] is set.  When it occurs,
    the check returns true exactly if the text around the last occurrence
    obeys steps 3 to 5; when it does not occur, the check returns false. *)
Definition trigger_rule (self : AbstractAbbreviation.t) (buffer : string) : Prop :=
  ∀ a, AbstractAbbreviation.abbreviation self = Some a →
    (occurs (folded self a) (folded self buffer) →
       ∃ before after fires,
         last_occurrence (folded self a) (folded self buffer) before after ∧
         AbstractAbbreviation._should_trigger_abbreviation self buffer = Ok fires ∧
         (fires = true ↔ boundary_rule self before after)) ∧
    (¬ occurs (folded self a) (folded self buffer) →
       AbstractAbbreviation._should_trigger_abbreviation self buffer = Ok false).

(** [DEFAULT_WORDCHAR_REGEX = '[\w]'] compiled, on ASCII text: a match
    needs a first byte that is a letter, a digit or an underscore. *)
Definition is_word_c (c : ascii) : bool :=
  let n := nat_of_ascii c in
  ((48 <=? n) && (n <=? 57) || (65 <=? n) && (n <=? 90)
   || (97 <=? n) && (n <=? 122) || (n =? 95))%nat.

Definition DEFAULT_WORDCHAR_REGEX : Regex :=
  mkRegex "[\w]" (fun s => match s with String c _ => is_word_c c | EmptyString => false end).

(** [AbstractAbbreviation.__init__] followed by [set_abbreviation]. *)
Definition abbreviation_config (abbr : string) : AbstractAbbreviation.t :=
  AbstractAbbreviation.mk (Some abbr) true false false false DEFAULT_WORDCHAR_REGEX.

Definition with_flags (self : AbstractAbbreviation.t)
    (ignoreCase immediate triggerInside : bool) : AbstractAbbreviation.t :=
  AbstractAbbreviation.mk (AbstractAbbreviation.abbreviation self)
    (AbstractAbbreviation.backspace self) ignoreCase immediate triggerInside
    (AbstractAbbreviation.wordChars self).

(** Some byte of [s] is an upper-case letter. *)
Fixpoint has_upper (s : string) : bool :=
  match s with
  | EmptyString => false
  | String c r => PyStr.isupper_c c || has_upper r
  end.

(** Modelled from the spec: the partition of section 4.3, step 1, with
    the buffer and the abbreviation both case-folded when [ignoreCase] is
    set, the matched text taken from the buffer as typed. *)
Definition spec_partition_input (self : AbstractAbbreviation.t) (buffer : string)
  : result (string * string * string) :=
  if AbstractAbbreviation.ignoreCase self then
    let* (before, matched, after) :=
      PyStr.rpartition (PyStr.lower buffer)
        (option_map PyStr.lower (AbstractAbbreviation.abbreviation self)) in
    Ok (before,
        PyStr.slice buffer (String.length before)
                    (String.length before + String.length matched),
        after)
  else PyStr.rpartition buffer (AbstractAbbreviation.abbreviation self).

(** A list of modifiers kept as a sorted set: in the order [sort] gives,
    without repetition. *)
Definition sorted_set (modifiers : list string) : Prop :=
  Sorted String.le modifiers ∧ NoDup modifiers.

(** A hotkey configuration with no window filter. *)
Definition hotkey_config (modifiers : list string) (key : string) : AbstractHotkey.t :=
  AbstractHotkey.set_hotkey
    (AbstractHotkey.mk (AbstractWindowFilter.mk None) [] None) modifiers (Some key).

(** *** The tree *)

(** The parent of the folder at [r]. *)
Definition folder_parent (h : gmap ref obj) (r : ref) : option (option ref) :=
  match h !! r with
  | Some (OFolder f) => Some (FolderObj.parent f)
  | _ => None
  end.

(** [ancestors h start chain]: following [parent] from [start] visits the
    folders [chain], nearest first, and ends at a root folder (one whose
    parent is [None]). *)
Inductive ancestors (h : gmap ref obj) : option ref → list ref → Prop :=
| ancestors_root : ancestors h None []
| ancestors_step r up chain :
    folder_parent h r = Some up →
    ancestors h up chain →
    ancestors h (Some r) (r :: chain).

(** The object with its usage count incremented by one. *)
Definition bump (o : obj) : obj :=
  match o with
  | OFolder f => OFolder (FolderObj.set_usageCount f (FolderObj.usageCount f + 1))
  | OPhrase p => OPhrase (PhraseObj.set_usageCount p (PhraseObj.usageCount p + 1))
  | OScript s => OScript (ScriptObj.set_usageCount s (ScriptObj.usageCount s + 1))
  end.

Definition usage (o : obj) : Z :=
  match o with
  | OFolder f => FolderObj.usageCount f
  | OPhrase p => PhraseObj.usageCount p
  | OScript s => ScriptObj.usageCount s
  end.

(** The store [h'] is [h] with the usage count of exactly the objects at
    [touched] incremented by one. *)
Definition bumped (touched : list ref) (h h' : gmap ref obj) : Prop :=
  ∀ r, h' !! r = if bool_decide (r ∈ touched) then bump <$> (h !! r) else h !! r.

(** Leaves: what phrases and scripts have in common. *)
Definition is_leaf (o : obj) : bool :=
  match o with OFolder _ => false | _ => true end.

Definition leaf_abbr (o : obj) : AbstractAbbreviation.t :=
  match o with
  | OFolder f => FolderObj.abbr f
  | OPhrase p => PhraseObj.abbr p
  | OScript s => ScriptObj.abbr s
  end.

Definition leaf_modes (o : obj) : list TriggerMode :=
  match o with
  | OFolder f => FolderObj.modes f
  | OPhrase p => PhraseObj.modes p
  | OScript s => ScriptObj.modes s
  end.

Definition leaf_parent (o : obj) : option ref :=
  match o with
  | OFolder f => FolderObj.parent f
  | OPhrase p => PhraseObj.parent p
  | OScript s => ScriptObj.parent s
  end.

Definition leaf_omitTrigger (o : obj) : bool :=
  match o with
  | OFolder _ => false
  | OPhrase p => PhraseObj.omitTrigger p
  | OScript s => ScriptObj.omitTrigger s
  end.

(** The text a build starts from: the phrase, or nothing for a script. *)
Definition leaf_text (o : obj) : string :=
  match o with
  | OPhrase p => PhraseObj.phrase p
  | _ => EmptyString
  end.

(** Case mirroring applies to phrases with [matchCase]. *)
Definition leaf_matchCase (o : obj) : bool :=
  match o with
  | OPhrase p => PhraseObj.matchCase p
  | _ => false
  end.

(** The case transformation on the output string. *)
Definition mirror_case (typedAbbr s : string) : string :=
  if PyStr.istitle typedAbbr then PyStr.capitalize s
  else if PyStr.isupper typedAbbr then PyStr.upper s
  else if PyStr.islower typedAbbr then PyStr.lower s
  else s.

(** The build of the leaf at [self]: [build_phrase] for a phrase (its
    expansion's backspaces and string), [process_buffer] for a script. *)
Definition leaf_build (depth : nat) (h : gmap ref obj) (self : ref) (buffer : string)
  : result (gmap ref obj * (Z * string)) :=
  match h !! self with
  | Some (OPhrase _) =>
      let* (h', e) := Phrase.build_phrase depth h self buffer in
      Ok (h', (Expansion.backspaces e, Expansion.string e))
  | Some (OScript _) => Script.process_buffer depth h self buffer
  | _ => Raise AttributeError
  end.




(** Case mirroring as a list of independent rules: title-case gives
    capitalised, all-upper gives upper-cased, all-lower gives lower-cased,
    anything else leaves the string. *)
Definition case_rules_independent (typedAbbr s out : string) : Prop :=
  (PyStr.istitle typedAbbr = true → out = PyStr.capitalize s) ∧
  (PyStr.isupper typedAbbr = true → out = PyStr.upper s) ∧
  (PyStr.islower typedAbbr = true → out = PyStr.lower s) ∧
  (PyStr.istitle typedAbbr = false → PyStr.isupper typedAbbr = false →
   PyStr.islower typedAbbr = false → out = s).

(** The same rules with title-case taking precedence over all-upper. *)
Definition case_rules_ordered (typedAbbr s out : string) : Prop :=
  (PyStr.istitle typedAbbr = true → out = PyStr.capitalize s) ∧
  (PyStr.istitle typedAbbr = false → PyStr.isupper typedAbbr = true →
   out = PyStr.upper s) ∧
  (PyStr.islower typedAbbr = true → out = PyStr.lower s) ∧
  (PyStr.istitle typedAbbr = false → PyStr.isupper typedAbbr = false →
   PyStr.islower typedAbbr = false → out = s).

(** *** Sample trees *)

Definition no_hotkey : AbstractHotkey.t :=
  AbstractHotkey.mk (AbstractWindowFilter.mk None) [] None.

(** [Folder(title)] with the given abbreviation settings, modes and parent. *)
Definition folder (title : string) (abbr : AbstractAbbreviation.t)
    (modes : list TriggerMode) (parent : option ref) : obj :=
  OFolder (FolderObj.mk abbr no_hotkey title [] [] modes 0 false parent).

(** [Phrase(description, phrase)] with the given settings. *)
Definition phrase (description text : string) (abbr : AbstractAbbreviation.t)
    (modes : list TriggerMode) (omitTrigger matchCase : bool) (parent : option ref) : obj :=
  OPhrase (PhraseObj.mk abbr no_hotkey description text modes 0 false omitTrigger
             matchCase parent false (Some "kb")).

(** [Script(description, code)] with the given settings. *)
Definition script (description code : string) (abbr : AbstractAbbreviation.t)
    (modes : list TriggerMode) (omitTrigger : bool) (parent : option ref) : obj :=
  OScript (ScriptObj.mk abbr no_hotkey description code ∅ modes 0 false omitTrigger
             parent false).

(** A root folder 0, a folder 1 inside it, and in folder 1 the phrase 2
    ("btw" for "by the way") and the script 3. *)
Definition sample_tree (phrase_abbr : AbstractAbbreviation.t)
    (omitTrigger matchCase : bool) : gmap ref obj :=
  <[0%nat := folder "root" (abbreviation_config "") [] None]>
  (<[1%nat := folder "work" (abbreviation_config "wk") [] (Some 0%nat)]>
  (<[2%nat := phrase "by the way" "by the way" phrase_abbr [ABBREVIATION]
                omitTrigger matchCase (Some 1%nat)]>
  (<[3%nat := script "stamp" "pass" phrase_abbr [ABBREVIATION] omitTrigger
                (Some 1%nat)]> ∅))).

Definition set_backspace (self : AbstractAbbreviation.t) (backspace : bool)
  : AbstractAbbreviation.t :=
  AbstractAbbreviation.mk (AbstractAbbreviation.abbreviation self) backspace
    (AbstractAbbreviation.ignoreCase self) (AbstractAbbreviation.immediate self)
    (AbstractAbbreviation.triggerInside self) (AbstractAbbreviation.wordChars self).

(** A root folder 0 with abbreviation "wk" in abbreviation mode, and a
    folder 1 inside it with abbreviation "btw" in abbreviation mode;
    [backspace] is the inner folder's backspace-on-trigger. *)
Definition sample_folders (backspace : bool) : gmap ref obj :=
  <[0%nat := folder "root" (abbreviation_config "wk") [ABBREVIATION] None]>
  (<[1%nat := folder "notes" (set_backspace (abbreviation_config "btw") backspace)
                [ABBREVIATION] (Some 0%nat)]> ∅).

(** *** Persisted phrases *)

(** The keys [Phrase.load_from_serialized] reads with [data[key]]. *)
Definition required_fields : list string :=
  [ "description"; "phrase"; "modes"; "usageCount"; "prompt"; "omitTrigger";
    "matchCase"; "showInTrayMenu"; "abbreviation"; "hotkey"; "filter" ].

(** The keys read from the ["abbreviation"] and ["hotkey"] entries. *)
Definition required_abbreviation_fields : list string :=
  [ "abbreviation"; "backspace"; "ignoreCase"; "immediate"; "triggerInside";
    "wordChars" ].
Definition required_hotkey_fields : list string := [ "modifiers"; "hotKey" ].

(** The loaded attributes with another [sendMode]. *)
Definition with_sendMode (p : Load.phrase_attrs) (sendMode : json) : Load.phrase_attrs :=
  Load.mk_phrase (Load.description p) (Load.phrase p) (Load.modes p)
    (Load.usageCount p) (Load.prompt p) (Load.omitTrigger p) (Load.matchCase p)
    (Load.parent p) (Load.showInTrayMenu p) sendMode (Load.abbr p) (Load.hotkey p)
    (Load.windowTitleRegex p).

(** The call raises. *)
Definition raises {A : Type} (r : result A) : Prop := ∃ e, r = Raise e.

(** A compiler that knows the default word-character pattern only. *)
Definition compile_default (regex : string) : result Regex :=
  if String.eqb regex "[\w]" then Ok DEFAULT_WORDCHAR_REGEX else Raise ReError.

(** What [Phrase.get_serializable] gives for a fresh phrase "btw" in
    abbreviation mode, as an older version wrote it: without ["sendMode"]. *)
Definition sample_record : gmap string json :=
  list_to_map
    [ ("type", JStr "phrase");
      ("description", JStr "by the way");
      ("phrase", JStr "by the way");
      ("modes", JList [JNum 1]);
      ("usageCount", JNum 0);
      ("prompt", JBool false);
      ("omitTrigger", JBool false);
      ("matchCase", JBool false);
      ("showInTrayMenu", JBool false);
      ("abbreviation",
       JObj (list_to_map
               [ ("abbreviation", JStr "btw"); ("backspace", JBool true);
                 ("ignoreCase", JBool false); ("immediate", JBool false);
                 ("triggerInside", JBool false); ("wordChars", JStr "[\w]") ]));
      ("hotkey",
       JObj (list_to_map [ ("modifiers", JList []); ("hotKey", JNull) ]));
      ("filter", JNull) ].

(** *** Outbound calls *)

(** How often the interface was asked to press, or to release, [modifier]. *)
Definition presses (modifier : string) (calls : list IoMediator.call) : nat :=
  count_occ IoMediator.call_eq_dec calls (IoMediator.press_key modifier).

Definition releases (modifier : string) (calls : list IoMediator.call) : nat :=
  count_occ IoMediator.call_eq_dec calls (IoMediator.release_key modifier).

(** A call that sends content. *)
Definition is_send (c : IoMediator.call) : bool :=
  match c with
  | IoMediator.send_key _ | IoMediator.send_string_call _
  | IoMediator.send_modified_key _ _ => true
  | _ => false
  end.

(** The entries of the modifier table that [__clearModifiers] releases. *)
Definition to_release (entry : string * bool) : bool :=
  entry.2 && negb (IoMediator.is_toggle entry.1).

(** The mediator right after start, with [<ctrl>] held down. *)
Definition ctrl_held : IoMediator.t :=
  IoMediator.mk (<[Key.CONTROL := true]> IoMediator.initial_modifiers) [] [].

(** *** Further vocabulary *)

(** The sections put together again. *)
Definition joined (sections : list string) : string :=
  fold_right String.append EmptyString sections.

(** No byte of [s] is ["<"]. *)
Fixpoint no_opening_angle (s : string) : bool :=
  match s with
  | EmptyString => true
  | String c r => negb (Ascii.eqb c KEY_SPLIT_RE.lt_c) && no_opening_angle r
  end.

(** A call the send loop may make for the held modifiers [released]:
    content, or pressing one of them again. *)
Definition send_or_repress (released : list string) (c : IoMediator.call) : Prop :=
  is_send c = true ∨ ∃ m, c = IoMediator.press_key m ∧ m ∈ released.

(** Notifications of the key-capture backend about modifier keys. *)
Inductive modifier_event : Type :=
| Down (modifier : string)
| Up (modifier : string).

Definition handle_modifier_event (self : IoMediator.t) (ev : modifier_event)
  : result IoMediator.t :=
  match ev with
  | Down m => IoMediator.handle_modifier_down self m
  | Up m => Ok (IoMediator.handle_modifier_up self m)
  end.

(** The notifications handled one after the other. *)
Fixpoint handle_modifier_events (self : IoMediator.t) (evs : list modifier_event)
  : result IoMediator.t :=
  match evs with
  | [] => Ok self
  | ev :: evs' =>
      let* self := handle_modifier_event self ev in
      handle_modifier_events self evs'
  end.

(** How often [modifier] went down in [evs]. *)
Definition downs (modifier : string) (evs : list modifier_event) : nat :=
  List.length (List.filter
                 (fun ev => match ev with
                            | Down m => String.eqb m modifier
                            | Up _ => false
                            end) evs).

(** The state the last notification about [modifier] in [evs] leaves a
    momentary modifier in; [held] when there is none. *)
Fixpoint last_state (modifier : string) (held : option bool) (evs : list modifier_event)
  : option bool :=
  match evs with
  | [] => held
  | Down m :: evs' =>
      last_state modifier (if String.eqb m modifier then Some true else held) evs'
  | Up m :: evs' =>
      last_state modifier (if String.eqb m modifier then Some false else held) evs'
  end.

(** The mediator as [__init__] leaves it. *)
Definition initial_mediator : IoMediator.t :=
  IoMediator.mk IoMediator.initial_modifiers [] [].

(** *** [model.py]: editing the tree *)

Module FolderEdit.

(** [o.parent = parent] *)
Definition set_parent (o : obj) (parent : option ref) : obj :=
  match o with
  | OFolder f =>
      OFolder (FolderObj.mk (FolderObj.abbr f) (FolderObj.hotkey f) (FolderObj.title f)
                 (FolderObj.folders f) (FolderObj.items f) (FolderObj.modes f)
                 (FolderObj.usageCount f) (FolderObj.showInTrayMenu f) parent)
  | OPhrase p =>
      OPhrase (PhraseObj.mk (PhraseObj.abbr p) (PhraseObj.hotkey p)
                 (PhraseObj.description p) (PhraseObj.phrase p) (PhraseObj.modes p)
                 (PhraseObj.usageCount p) (PhraseObj.prompt p) (PhraseObj.omitTrigger p)
                 (PhraseObj.matchCase p) parent (PhraseObj.showInTrayMenu p)
                 (PhraseObj.sendMode p))
  | OScript s =>
      OScript (ScriptObj.mk (ScriptObj.abbr s) (ScriptObj.hotkey s)
                 (ScriptObj.description s) (ScriptObj.code s) (ScriptObj.store s)
                 (ScriptObj.modes s) (ScriptObj.usageCount s) (ScriptObj.prompt s)
                 (ScriptObj.omitTrigger s) parent (ScriptObj.showInTrayMenu s))
  end.

Definition set_items (f : FolderObj.t) (items : list ref) : FolderObj.t :=
  FolderObj.mk (FolderObj.abbr f) (FolderObj.hotkey f) (FolderObj.title f)
    (FolderObj.folders f) items (FolderObj.modes f) (FolderObj.usageCount f)
    (FolderObj.showInTrayMenu f) (FolderObj.parent f).

Definition set_folders (f : FolderObj.t) (folders : list ref) : FolderObj.t :=
  FolderObj.mk (FolderObj.abbr f) (FolderObj.hotkey f) (FolderObj.title f)
    folders (FolderObj.items f) (FolderObj.modes f) (FolderObj.usageCount f)
    (FolderObj.showInTrayMenu f) (FolderObj.parent f).

(** [l.remove(x)]: the first occurrence goes; [ValueError] when there is
    none.  Objects compare by identity. *)
Fixpoint list_remove (x : ref) (l : list ref) : result (list ref) :=
  match l with
  | [] => Raise ValueError
  | y :: l' =>
      if bool_decide (y = x) then Ok l'
      else let* rest := list_remove x l' in Ok (y :: rest)
  end.

(** The object a reference of the program denotes. *)
Definition deref (h : gmap ref obj) (r : ref) : result obj :=
  match h !! r with
  | Some o => Ok o
  | None => Raise AttributeError
  end.

Definition add_item (h : gmap ref obj) (self item : ref) : result (gmap ref obj) :=
  let* _ := Folder.get h self in
  let* o := deref h item in
  let h := <[item := set_parent o (Some self)]> h in
  let* f := Folder.get h self in
  Ok (<[self := OFolder (set_items f (FolderObj.items f ++ [item]))]> h).

Definition remove_item (h : gmap ref obj) (self item : ref) : result (gmap ref obj) :=
  let* f := Folder.get h self in
  let* items := list_remove item (FolderObj.items f) in
  Ok (<[self := OFolder (set_items f items)]> h).

Definition add_folder (h : gmap ref obj) (self folder : ref) : result (gmap ref obj) :=
  let* _ := Folder.get h self in
  let* o := deref h folder in
  let h := <[folder := set_parent o (Some self)]> h in
  let* f := Folder.get h self in
  Ok (<[self := OFolder (set_folders f (FolderObj.folders f ++ [folder]))]> h).

Definition remove_folder (h : gmap ref obj) (self folder : ref)
  : result (gmap ref obj) :=
  let* f := Folder.get h self in
  let* folders := list_remove folder (FolderObj.folders f) in
  Ok (<[self := OFolder (set_folders f folders)]> h).

End FolderEdit.

(** The items of the folder at [r]. *)
Definition items_of (h : gmap ref obj) (r : ref) : list ref :=
  match h !! r with
  | Some (OFolder f) => FolderObj.items f
  | _ => []
  end.

(** *** [iomediator.py]: the dispatcher thread *)

Module Dispatcher.

(** What [run] hands to each listener for one entry of the queue. *)
Inductive notification : Type :=
| handle_hotkey (key : string) (modifiers : list string) (windowName : string)
| handle_keypress (key : string) (windowName : string).

(** [self.modifiers[modifier]] *)
Definition held (self : IoMediator.t) (modifier : string) : result bool :=
  match (IoMediator.modifiers self !! modifier : option bool) with
  | Some on => Ok on
  | None => Raise (KeyError modifier)
  end.

Definition __getNonPrintingModifiersOn (self : IoMediator.t) : result (list string) :=
  let* modifiers :=
    fold_left
      (fun (acc : result (list string)) modifier =>
         let* modifiers := acc in
         let* on := held self modifier in
         Ok (if on then (modifiers ++ [modifier])%list else modifiers))
      NON_PRINTING_MODIFIERS (Ok []) in
  Ok (AbstractHotkey.sort modifiers).

Section Run.

Variable KeyCode : Type.

(** [interface.lookup_string(keyCode, shifted, numlock, altGrid)] *)
Variable lookup_string : KeyCode → bool → bool → bool → string.

(** The body of the loop of [run], for an entry of the queue other than
    the shutdown entry [(None, None)]. *)
Definition run_entry (self : IoMediator.t) (keyCode : KeyCode) (windowName : string)
  : result notification :=
  let* numLock := held self Key.NUMLOCK in
  let* modifiers := __getNonPrintingModifiersOn self in
  if (0 <? List.length modifiers)%nat then
    let* shift := held self Key.SHIFT in
    let modifiers :=
      if shift then AbstractHotkey.sort (modifiers ++ [Key.SHIFT])%list
      else modifiers in
    let* altGr := held self Key.ALT_GR in
    Ok (handle_hotkey (lookup_string keyCode false numLock altGr) modifiers windowName)
  else
    let* capsLock := held self Key.CAPSLOCK in
    let* shift := held self Key.SHIFT in
    let shifted := xorb capsLock shift in
    let* altGr := held self Key.ALT_GR in
    Ok (handle_keypress (lookup_string keyCode shifted numLock altGr) windowName).

End Run.

End Dispatcher.

(** The held keys among alt, ctrl, shift and super, in this order. *)
Definition held_in_order (alt ctrl shift super : bool) : list string :=
  ((if alt then [Key.ALT] else []) ++ (if ctrl then [Key.CONTROL] else []) ++
   (if shift then [Key.SHIFT] else []) ++ (if super then [Key.SUPER] else []))%list.

(** * Properties *)

(** ** Byte strings *)

Section PyStrFacts.

Lemma append_empty_r (s : string) : s +:+ EmptyString = s.
Proof. induction s as [|c s IH]; simpl; [reflexivity | now rewrite IH]. Qed.

Lemma append_assoc (a b c : string) : (a +:+ b) +:+ c = a +:+ (b +:+ c).
Proof. induction a as [|x a IH]; simpl; [reflexivity | now rewrite IH]. Qed.

Lemma length_append (a b : string) :
  String.length (a +:+ b) = (String.length a + String.length b)%nat.
Proof. induction a as [|x a IH]; simpl; [reflexivity | now rewrite IH]. Qed.

Lemma length_zero_empty (s : string) : String.length s = 0%nat → s = EmptyString.
Proof. destruct s; [reflexivity | discriminate]. Qed.

Lemma length_one_char (s : string) :
  String.length s = 1%nat → ∃ c, s = String c EmptyString.
Proof.
  destruct s as [|c [|d s]]; try discriminate.
  intros _. now exists c.
Qed.

Lemma map_length (f : ascii → ascii) (s : string) :
  String.length (PyStr.map f s) = String.length s.
Proof. induction s as [|c s IH]; simpl; [reflexivity | now rewrite IH]. Qed.

Lemma map_append (f : ascii → ascii) (a b : string) :
  PyStr.map f (a +:+ b) = PyStr.map f a +:+ PyStr.map f b.
Proof. induction a as [|x a IH]; simpl; [reflexivity | now rewrite IH]. Qed.

Lemma drop_append (p r : string) : PyStr.drop (String.length p) (p +:+ r) = r.
Proof. induction p as [|c p IH]; simpl; [reflexivity | exact IH]. Qed.

Lemma take_append (p r : string) : PyStr.take (String.length p) (p +:+ r) = p.
Proof. induction p as [|c p IH]; simpl; [reflexivity | now rewrite IH]. Qed.

Lemma slice_middle (a b c : string) :
  PyStr.slice (a +:+ b +:+ c) (String.length a) (String.length a + String.length b) = b.
Proof.
  unfold PyStr.slice. rewrite drop_append.
  replace (String.length a + String.length b - String.length a)%nat
    with (String.length b) by lia.
  apply take_append.
Qed.

Lemma startswith_append (p r : string) : PyStr.startswith (p +:+ r) p = true.
Proof.
  induction p as [|c p IH]; simpl; [reflexivity |].
  now rewrite Ascii.eqb_refl.
Qed.

Lemma startswith_split (s p : string) :
  PyStr.startswith s p = true → s = p +:+ PyStr.drop (String.length p) s.
Proof.
  revert s. induction p as [|c p IH]; intros s H; simpl in *; [reflexivity |].
  destruct s as [|d s]; [discriminate |].
  destruct (Ascii.eqb c d) eqn:E; [| discriminate].
  apply Ascii.eqb_eq in E. subst d. simpl. f_equal. now apply IH.
Qed.

Lemma startswith_false (s p r : string) :
  PyStr.startswith s p = false → s ≠ p +:+ r.
Proof.
  intros H ->. now rewrite startswith_append in H.
Qed.

(** [rfind_split] finds an occurrence, and it is the last one. *)
Lemma rfind_split_sound (sep s b a : string) :
  PyStr.rfind_split sep s = Some (b, a) → occurs_at sep s b a.
Proof.
  unfold occurs_at. revert b a.
  induction s as [|c s IH]; intros b a H; simpl in H.
  - destruct sep; simpl in H; [| discriminate].
    now inversion H.
  - destruct (PyStr.rfind_split sep s) as [[b0 a0]|] eqn:E.
    + inversion H; subst. simpl. f_equal. now apply IH.
    + destruct (PyStr.startswith (String c s) sep) eqn:P; [| discriminate].
      inversion H; subst. simpl. now apply startswith_split.
Qed.

Lemma rfind_split_none (sep s : string) :
  PyStr.rfind_split sep s = None → ¬ occurs sep s.
Proof.
  induction s as [|c s IH]; intros H [b [a Hocc]]; unfold occurs_at in *; simpl in H.
  - destruct sep; simpl in H; [discriminate |].
    destruct b; discriminate.
  - destruct (PyStr.rfind_split sep s) as [[b0 a0]|] eqn:E; [discriminate |].
    destruct (PyStr.startswith (String c s) sep) eqn:P; [discriminate |].
    destruct b as [|d b]; simpl in Hocc.
    + now apply (startswith_false _ _ a) in P.
    + inversion Hocc; subst. apply IH; [reflexivity |]. now exists b, a.
Qed.

Lemma rfind_split_last (sep s b a : string) :
  PyStr.rfind_split sep s = Some (b, a) → last_occurrence sep s b a.
Proof.
  intros H. split; [now apply rfind_split_sound |].
  revert b a H. induction s as [|c s IH]; intros b a H b' a' Hocc;
    unfold occurs_at in *; simpl in H.
  - destruct b'; [simpl; lia | discriminate].
  - destruct (PyStr.rfind_split sep s) as [[b0 a0]|] eqn:E.
    + inversion H; subst. destruct b' as [|d b']; simpl in *; [lia |].
      inversion Hocc; subst.
      specialize (IH b0 a eq_refl b' a' eq_refl). lia.
    + destruct b' as [|d b']; simpl in *; [lia |].
      inversion Hocc; subst. exfalso.
      apply (rfind_split_none _ _ E). now exists b', a'.
Qed.

Lemma rfind_split_some (sep s : string) :
  occurs sep s → ∃ b a, PyStr.rfind_split sep s = Some (b, a).
Proof.
  intros Hocc. destruct (PyStr.rfind_split sep s) as [[b a]|] eqn:E.
  - now exists b, a.
  - now apply rfind_split_none in E.
Qed.

End PyStrFacts.

(** ** The abbreviation trigger *)

Section AbbreviationTrigger.

Import AbstractAbbreviation.

Lemma rpartition_found (sep s : string) :
  sep ≠ EmptyString → occurs sep s →
  ∃ b a, PyStr.rpartition s (Some sep) = Ok (b, sep, a) ∧ last_occurrence sep s b a.
Proof.
  intros Hne Hocc. destruct (rfind_split_some _ _ Hocc) as (b & a & E).
  exists b, a. split; [| now apply rfind_split_last].
  unfold PyStr.rpartition. destruct sep as [|x sep]; [congruence |]. now rewrite E.
Qed.

Lemma rpartition_missing (sep s : string) :
  sep ≠ EmptyString → ¬ occurs sep s →
  PyStr.rpartition s (Some sep) = Ok (EmptyString, EmptyString, s).
Proof.
  intros Hne Hocc. unfold PyStr.rpartition. destruct sep as [|x sep]; [congruence |].
  destruct (PyStr.rfind_split _ s) as [[b r]|] eqn:E; [| reflexivity].
  exfalso. apply Hocc. exists b, r. now apply rfind_split_sound.
Qed.

Lemma length_take (n : nat) (s : string) :
  String.length (PyStr.take n s) = Nat.min n (String.length s).
Proof.
  revert s. induction n as [|n IH]; intros [|c s]; simpl; auto.
Qed.

Lemma length_drop (n : nat) (s : string) :
  String.length (PyStr.drop n s) = (String.length s - n)%nat.
Proof.
  revert s. induction n as [|n IH]; intros [|c s]; simpl; auto.
Qed.

Lemma length_slice (s : string) (i j : nat) :
  (j ≤ String.length s)%nat → String.length (PyStr.slice s i j) = (j - i)%nat.
Proof.
  intros H. unfold PyStr.slice. rewrite length_take, length_drop. lia.
Qed.

(** The partition when the abbreviation occurs in the searched text. *)
Lemma partition_input_found (self : t) (a buffer : string) :
  abbreviation self = Some a → a ≠ EmptyString → occurs a (searched self buffer) →
  ∃ before matched after,
    _partition_input self buffer = Ok (before, matched, after) ∧
    last_occurrence a (searched self buffer) before after ∧
    String.length matched = String.length a.
Proof.
  intros Ha Hne Hocc. unfold _partition_input, searched in *. rewrite Ha.
  destruct (ignoreCase self).
  - destruct (rpartition_found _ _ Hne Hocc) as (b & r & E & Hlast).
    rewrite E. simpl. exists b, (PyStr.slice buffer (String.length b)
                                   (String.length b + String.length a)), r.
    repeat split; try apply Hlast.
    rewrite length_slice; [lia |].
    destruct Hlast as [Hat _]. unfold occurs_at in Hat.
    apply (f_equal String.length) in Hat.
    unfold PyStr.lower in Hat. rewrite map_length, !length_append in Hat. lia.
  - destruct (rpartition_found _ _ Hne Hocc) as (b & r & E & Hlast).
    exists b, a, r. now rewrite E.
Qed.

(** The partition when it does not occur. *)
Lemma partition_input_missing (self : t) (a buffer : string) :
  abbreviation self = Some a → a ≠ EmptyString → ¬ occurs a (searched self buffer) →
  _partition_input self buffer = Ok (EmptyString, EmptyString, searched self buffer).
Proof.
  intros Ha Hne Hocc. unfold _partition_input, searched in *. rewrite Ha.
  destruct (ignoreCase self); rewrite (rpartition_missing _ _ Hne Hocc); reflexivity.
Qed.

Lemma should_trigger_of_partition (self : t) (buffer before matched after : string) :
  _partition_input self buffer = Ok (before, matched, after) →
  _should_trigger_abbreviation self buffer =
    Ok ((0 <? String.length matched)%nat && boundary_check self before after).
Proof.
  intros E. unfold _should_trigger_abbreviation, boundary_check. rewrite E. simpl.
  destruct (0 <? String.length matched)%nat; [| reflexivity]. simpl.
  destruct (immediate self); simpl.
  - destruct after as [|c r]; simpl; [| reflexivity].
    destruct (0 <? String.length before)%nat; [| reflexivity]. simpl.
    destruct (re_match (wordChars self) (last_str before)); [| reflexivity].
    now destruct (triggerInside self).
  - destruct (String.length after =? 1)%nat eqn:L; [| reflexivity]. simpl.
    destruct (re_match (wordChars self) after); [reflexivity |]. simpl.
    apply Nat.eqb_eq in L. rewrite L. simpl.
    destruct (0 <? String.length before)%nat; [| reflexivity]. simpl.
    destruct (re_match (wordChars self) (last_str before)); [| reflexivity].
    now destruct (triggerInside self).
Qed.

Lemma last_none_empty (s : string) : PyStr.last s = None → s = EmptyString.
Proof.
  induction s as [|c s IH]; [reflexivity |]. simpl.
  destruct s; [discriminate |]. intros H. specialize (IH H). discriminate.
Qed.

Lemma boundary_check_rule (self : t) (before after : string) :
  boundary_check self before after = true ↔ boundary_rule self before after.
Proof.
  unfold boundary_check, boundary_rule, word_char, last_str.
  rewrite andb_true_iff, negb_true_iff.
  assert (A : (if immediate self
               then (String.length after =? 0)%nat
               else (String.length after =? 1)%nat
                    && negb (re_match (wordChars self) after)) = true
              ↔ (if immediate self
                 then after = EmptyString
                 else ∃ c, after = String c EmptyString
                           ∧ re_match (wordChars self) (String c EmptyString) = false)).
  { destruct (immediate self).
    - rewrite Nat.eqb_eq. split; [apply length_zero_empty | now intros ->].
    - rewrite andb_true_iff, Nat.eqb_eq, negb_true_iff. split.
      + intros [L M]. destruct (length_one_char _ L) as [c ->]. now exists c.
      + intros (c & -> & M). now split. }
  assert (B : (0 <? String.length before)%nat
              && re_match (wordChars self)
                   match PyStr.last before with
                   | Some c => String c EmptyString
                   | None => EmptyString
                   end
              && negb (triggerInside self) = false
              ↔ (∀ c, PyStr.last before = Some c →
                      re_match (wordChars self) (String c EmptyString) = true →
                      triggerInside self = true)).
  { destruct (PyStr.last before) as [c|] eqn:L.
    - assert ((0 <? String.length before)%nat = true) as ->.
      { apply Nat.ltb_lt. destruct before; [discriminate | simpl; lia]. }
      simpl. destruct (re_match (wordChars self) (String c EmptyString)) eqn:M; simpl.
      + rewrite negb_false_iff. split.
        * intros T d [= <-] _. exact T.
        * intros H. now apply (H c).
      + split; [| reflexivity]. intros _ d [= <-] M'. congruence.
    - apply last_none_empty in L. subst before. simpl. split; [| reflexivity].
      intros _ c. discriminate. }
  tauto.
Qed.

End AbbreviationTrigger.

Section TriggerRule.

Import AbstractAbbreviation.

(** C1, as amended: for a configuration whose abbreviation is neither
    [None] nor empty, the abbreviation check follows the rule of section
    4.3.  The abbreviation is looked for in the buffer, both case-folded
    when [ignoreCase] is set; when it occurs, the check returns true
    exactly if the text around its last occurrence obeys the boundary
    rule: not immediate, [after] is one character outside
    [wordCharPattern]; immediate, [after] is empty; a word character right
    before the abbreviation requires [triggerInside].  When it does not
    occur, the check returns false.  The statement is for abbreviations
    that are their own case fold; what the code does with an upper-case
    abbreviation under [ignoreCase] is left out here. *)
Theorem should_trigger_abbreviation_rule (self : t) (buffer : string) :
  abbreviation self ≠ Some EmptyString → folded_abbreviation self →
  trigger_rule self buffer.
Proof.
  intros Hne Hfold a Ha.
  assert (a ≠ EmptyString) as Hne' by congruence.
  rewrite (Hfold a Ha). change (folded self buffer) with (searched self buffer).
  split.
  - intros Hocc.
    destruct (partition_input_found self a buffer Ha Hne' Hocc)
      as (before & matched & after & E & Hlast & Hlen).
    exists before, after, (boundary_check self before after).
    split; [exact Hlast |]. split; [| apply boundary_check_rule].
    rewrite (should_trigger_of_partition _ _ _ _ _ E).
    assert ((0 <? String.length matched)%nat = true) as ->; [| reflexivity].
    apply Nat.ltb_lt. rewrite Hlen. destruct a; [congruence | simpl; lia].
  - intros Hocc.
    rewrite (should_trigger_of_partition _ _ _ _ _
               (partition_input_missing self a buffer Ha Hne' Hocc)).
    reflexivity.
Qed.

Lemma should_trigger_abbreviation_rule_witness :
  abbreviation (with_flags (abbreviation_config "btw") true false false)
    ≠ Some EmptyString ∧
  folded_abbreviation (with_flags (abbreviation_config "btw") true false false) ∧
  trigger_rule (with_flags (abbreviation_config "btw") true false false) "Hello BTW ".
Proof.
  assert (H1 : abbreviation (with_flags (abbreviation_config "btw") true false false)
               ≠ Some EmptyString) by discriminate.
  assert (H2 : folded_abbreviation
                 (with_flags (abbreviation_config "btw") true false false)).
  { intros a [= <-]. reflexivity. }
  split; [exact H1 |]. split; [exact H2 |].
  exact (should_trigger_abbreviation_rule
           (with_flags (abbreviation_config "btw") true false false) "Hello BTW "
           H1 H2).
Defined.

(** C1 as stated covers every non-null abbreviation; for the empty one
    the partition raises [ValueError], so the check neither succeeds nor
    fails although the rule's conditions hold. *)
Lemma trigger_rule_empty_abbreviation :
  ¬ trigger_rule (with_flags (abbreviation_config "") false true false) "".
Proof.
  intros H. destruct (H "" eq_refl) as [Hfound _].
  destruct Hfound as (before & after & fires & _ & E & _).
  - now exists "", "".
  - discriminate E.
Qed.

(** The rule does not describe the one-sided fold of [_partition_input]:
    with [ignoreCase] set and the abbreviation "BTW", the rule finds the
    abbreviation in the typed "btw " and asks for a trigger, and the check
    returns false. *)
Lemma trigger_rule_upper_abbreviation :
  ¬ trigger_rule (with_flags (abbreviation_config "BTW") true false false) "btw ".
Proof.
  intros H. destruct (H "BTW" eq_refl) as [Hfound _].
  destruct Hfound as (before & after & fires & [Hat _] & E & Hiff).
  - now exists "", " ".
  - injection E as <-.
    assert (false = true) as Habs; [| discriminate Habs].
    apply Hiff. unfold occurs_at in Hat. cbv [folded with_flags ignoreCase] in Hat.
    change (PyStr.lower "btw ") with "btw " in Hat.
    change (PyStr.lower "BTW") with "btw" in Hat.
    destruct before as [|c before]; simpl in Hat.
    + injection Hat as <-. split; [| intros c; discriminate].
      exists " "%char. split; reflexivity.
    + exfalso. injection Hat as _ Hat.
      do 4 (destruct before as [|? before]; simpl in Hat;
            [discriminate Hat | try discriminate Hat; injection Hat as _ Hat]).
Qed.

(** The examples of section 8 for the abbreviation "btw". *)
Example trigger_btw_examples :
  _should_trigger_abbreviation (abbreviation_config "btw") "hello btw " = Ok true ∧
  _should_trigger_abbreviation (abbreviation_config "btw") "awkbtw " = Ok false ∧
  _should_trigger_abbreviation
    (with_flags (abbreviation_config "btw") false false true) "awkbtw " = Ok true ∧
  _should_trigger_abbreviation (abbreviation_config "btw") "btwx" = Ok false ∧
  _should_trigger_abbreviation
    (with_flags (abbreviation_config "btw") false true false) "btw" = Ok true ∧
  _should_trigger_abbreviation
    (with_flags (abbreviation_config "btw") false true false) "btw " = Ok false.
Proof. repeat split. Qed.

End TriggerRule.

(** ** Case-insensitive partition *)

Section IgnoreCase.

Import AbstractAbbreviation.

Lemma has_upper_append (a b : string) :
  has_upper (a +:+ b) = has_upper a || has_upper b.
Proof.
  induction a as [|c a IH]; simpl; [reflexivity |].
  now rewrite IH, orb_assoc.
Qed.

Lemma tolower_not_upper (c : ascii) : PyStr.isupper_c (PyStr.tolower_c c) = false.
Proof. destruct c as [[] [] [] [] [] [] [] []]; reflexivity. Qed.

Lemma lower_no_upper (s : string) : has_upper (PyStr.lower s) = false.
Proof.
  unfold PyStr.lower. induction s as [|c s IH]; simpl; [reflexivity |].
  now rewrite tolower_not_upper, IH.
Qed.

Lemma has_upper_not_empty (a : string) : has_upper a = true → a ≠ EmptyString.
Proof. now destruct a. Qed.

(** Under [ignoreCase] only the buffer is lower-cased: an abbreviation
    with an upper-case letter is found in no buffer. *)
Lemma partition_input_upper_abbreviation (self : t) (a buffer : string) :
  ignoreCase self = true → abbreviation self = Some a → has_upper a = true →
  _partition_input self buffer = Ok (EmptyString, EmptyString, PyStr.lower buffer) ∧
  _should_trigger_abbreviation self buffer = Ok false.
Proof.
  intros Hic Ha Hup.
  assert (¬ occurs a (searched self buffer)) as Hno.
  { unfold searched. rewrite Hic. intros (b & r & Hocc). unfold occurs_at in Hocc.
    pose proof (lower_no_upper buffer) as L. rewrite Hocc, !has_upper_append, Hup in L.
    now rewrite orb_true_r in L. }
  pose proof (partition_input_missing self a buffer Ha (has_upper_not_empty _ Hup) Hno) as E.
  split.
  - rewrite E. unfold searched. now rewrite Hic.
  - now rewrite (should_trigger_of_partition _ _ _ _ _ E).
Qed.

Lemma tolower_fixed (c : ascii) : PyStr.tolower_c c = c ↔ PyStr.isupper_c c = false.
Proof. destruct c as [[] [] [] [] [] [] [] []]; split; intros H; (reflexivity || discriminate H). Qed.

Lemma lower_fixed_no_upper (a : string) :
  PyStr.lower a = a ↔ has_upper a = false.
Proof.
  unfold PyStr.lower. induction a as [|c a IH]; simpl; [tauto |].
  rewrite orb_false_iff, <- IH, <- tolower_fixed. split.
  - intros [= E1 E2]. now split.
  - intros [E1 E2]. now rewrite E1, E2.
Qed.

(** Under [ignoreCase] the abbreviations that are their own case fold
    are those without an upper-case letter: the others are the ones no
    buffer matches. *)
Lemma folded_abbreviation_no_upper (self : t) (a : string) :
  ignoreCase self = true → abbreviation self = Some a →
  folded_abbreviation self ↔ has_upper a = false.
Proof.
  intros Hic Ha. rewrite <- lower_fixed_no_upper.
  unfold folded_abbreviation, folded. rewrite Hic, Ha. split.
  - intros H. now apply H.
  - now intros H b [= <-].
Qed.

Lemma map_append_inv (f : ascii → ascii) (x y s : string) :
  PyStr.map f s = x +:+ y →
  s = PyStr.take (String.length x) s +:+ PyStr.drop (String.length x) s ∧
  PyStr.map f (PyStr.take (String.length x) s) = x ∧
  PyStr.map f (PyStr.drop (String.length x) s) = y.
Proof.
  revert s. induction x as [|c x IH]; intros s H; simpl in *.
  - auto.
  - destruct s as [|d s]; [discriminate |]. simpl in H. inversion H; subst.
    destruct (IH s H2) as (E1 & E2 & E3). simpl.
    repeat split; [now rewrite <- E1 | now rewrite E2 | exact E3].
Qed.

(** What the code does under [ignoreCase] when the abbreviation, as
    configured, occurs in the lower-cased buffer: the split is at its last
    occurrence there, and the matched text is the buffer's own. *)
Lemma partition_input_ignoreCase (self : t) (a buffer : string) :
  ignoreCase self = true → abbreviation self = Some a → a ≠ EmptyString →
  occurs a (PyStr.lower buffer) →
  ∃ before matched after typed_before typed_after,
    _partition_input self buffer = Ok (before, matched, after) ∧
    last_occurrence a (PyStr.lower buffer) before after ∧
    buffer = typed_before +:+ matched +:+ typed_after ∧
    PyStr.lower typed_before = before ∧
    PyStr.lower matched = a ∧
    PyStr.lower typed_after = after.
Proof.
  intros Hic Ha Hne Hocc.
  destruct (rpartition_found _ _ Hne Hocc) as (b & r & E & Hlast).
  pose proof Hlast as [Hat _]. unfold occurs_at in Hat.
  destruct (map_append_inv _ _ _ _ Hat) as (S1 & M1 & M2).
  destruct (map_append_inv _ _ _ _ M2) as (S2 & M3 & M4).
  set (rest := PyStr.drop (String.length b) buffer) in *.
  exists b, (PyStr.take (String.length a) rest), r,
    (PyStr.take (String.length b) buffer), (PyStr.drop (String.length a) rest).
  repeat split; try apply Hlast; try assumption.
  - unfold _partition_input. rewrite Hic, Ha, E. simpl.
    unfold PyStr.slice.
    replace (String.length b + String.length a - String.length b)%nat
      with (String.length a) by lia.
    reflexivity.
  - now rewrite <- S2.
Qed.

(** C2 at an upper-case abbreviation: with [ignoreCase] set and the
    abbreviation "BTW", the typed "btw " is searched for "BTW" as
    configured and nothing is found, where folding both sides (the
    partition of the specification) finds it. *)
Theorem partition_input_ignoreCase_unfolded_abbreviation :
  _partition_input (with_flags (abbreviation_config "BTW") true false false) "btw "
    = Ok ("", "", "btw ") ∧
  _should_trigger_abbreviation (with_flags (abbreviation_config "BTW") true false false)
    "btw " = Ok false ∧
  spec_partition_input (with_flags (abbreviation_config "BTW") true false false) "btw "
    = Ok ("", "btw", " ").
Proof. repeat split. Qed.

End IgnoreCase.

(** ** Hotkeys *)

Section Hotkey.

Import AbstractHotkey.

(** [check_hotkey] compares the two lists as they are. *)
Lemma check_hotkey_true (self : t) (active : list string) (key windowTitle : string) :
  check_hotkey self active key windowTitle = true ↔
    AbstractWindowFilter._should_trigger_window_title (filter self) windowTitle = true ∧
    modifiers self = active ∧
    hotKey self = Some key.
Proof.
  unfold check_hotkey.
  destruct (AbstractWindowFilter._should_trigger_window_title _ _);
    rewrite ?andb_true_r, ?andb_false_r.
  - case_bool_decide as Hk.
    + rewrite andb_true_iff, !bool_decide_eq_true. tauto.
    + split; [discriminate |]. intros (_ & _ & E). congruence.
  - split; [discriminate |]. intros [? _]. discriminate.
Qed.

Lemma sorted_set_eq (l k : list string) :
  sorted_set l → sorted_set k →
  l = k ↔ (list_to_set l : gset string) = list_to_set k.
Proof.
  intros [Sl Nl] [Sk Nk]. split; [now intros -> |].
  intros E. apply (Sorted_unique String.le); [assumption .. |].
  apply NoDup_Permutation; [assumption .. |].
  intros x. rewrite <- !(elem_of_list_to_set (C := gset string)). now rewrite E.
Qed.

(** C4: for modifier lists kept as sorted sets, [check_hotkey] is true
    exactly when the window filter passes, the active modifiers are the
    configured set (no modifier more, none less) and the key is the
    configured key. *)
Theorem check_hotkey_iff (self : t) (active : list string) (key windowTitle : string) :
  sorted_set (modifiers self) → sorted_set active →
  check_hotkey self active key windowTitle = true ↔
    AbstractWindowFilter._should_trigger_window_title (filter self) windowTitle = true ∧
    (list_to_set (modifiers self) : gset string) = list_to_set active ∧
    hotKey self = Some key.
Proof.
  intros Hc Ha. rewrite check_hotkey_true, (sorted_set_eq _ _ Hc Ha). reflexivity.
Qed.

Lemma sorted_set_ctrl_alt : sorted_set [Key.ALT; Key.CONTROL].
Proof.
  split.
  - repeat constructor.
  - apply (bool_decide_unpack _). vm_compute. exact I.
Qed.

Lemma check_hotkey_iff_witness :
  sorted_set (modifiers (hotkey_config [Key.CONTROL; Key.ALT] "k")) ∧
  sorted_set [Key.ALT; Key.CONTROL] ∧
  (check_hotkey (hotkey_config [Key.CONTROL; Key.ALT] "k") [Key.ALT; Key.CONTROL]
     "k" "editor" = true ↔
   AbstractWindowFilter._should_trigger_window_title
     (filter (hotkey_config [Key.CONTROL; Key.ALT] "k")) "editor" = true ∧
   (list_to_set (modifiers (hotkey_config [Key.CONTROL; Key.ALT] "k")) : gset string)
     = list_to_set [Key.ALT; Key.CONTROL] ∧
   hotKey (hotkey_config [Key.CONTROL; Key.ALT] "k") = Some "k").
Proof.
  split; [exact sorted_set_ctrl_alt |]. split; [exact sorted_set_ctrl_alt |].
  apply (check_hotkey_iff (hotkey_config [Key.CONTROL; Key.ALT] "k")
           [Key.ALT; Key.CONTROL] "k" "editor");
    exact sorted_set_ctrl_alt.
Defined.

(** [set_hotkey] leaves the modifiers in sorted order. *)
Lemma set_hotkey_sorted (self : t) (mods : list string) (key : option string) :
  Sorted String.le (modifiers (set_hotkey self mods key)).
Proof. apply (Sorted_merge_sort String.le). Qed.

(** Section 8: [{ctrl, alt}] with key ["k"] matches when exactly these are
    active, in whatever order they were configured, and not with a further
    modifier held. *)
Example check_hotkey_ctrl_alt :
  check_hotkey (hotkey_config [Key.CONTROL; Key.ALT] "k") [Key.ALT; Key.CONTROL]
    "k" "editor" = true ∧
  check_hotkey (hotkey_config [Key.ALT; Key.CONTROL] "k") [Key.ALT; Key.CONTROL]
    "k" "editor" = true ∧
  check_hotkey (hotkey_config [Key.CONTROL; Key.ALT] "k")
    [Key.ALT; Key.CONTROL; Key.SHIFT] "k" "editor" = false ∧
  check_hotkey (hotkey_config [Key.CONTROL; Key.ALT] "k") [Key.CONTROL]
    "k" "editor" = false.
Proof. repeat split. Qed.

End Hotkey.

(** ** The tree: parent chains and usage counts *)

Section Tree.

Lemma bind_Ok {A B : Type} (m : result A) (k : A → result B) (b : B) :
  bind m k = Ok b → ∃ a, m = Ok a ∧ k a = Ok b.
Proof. destruct m as [a|e]; simpl; [eauto | discriminate]. Qed.

Lemma ancestors_functional (h : gmap ref obj) (s : option ref) (c1 c2 : list ref) :
  ancestors h s c1 → ancestors h s c2 → c1 = c2.
Proof.
  intros H1. revert c2. induction H1 as [|r up chain Hp _ IH]; intros c2 H2.
  - now inversion H2.
  - inversion H2 as [|r' up' chain' Hp' H2' E1]; subst.
    rewrite Hp in Hp'. injection Hp' as <-. f_equal. now apply IH.
Qed.

Lemma ancestors_suffix (h : gmap ref obj) (s : option ref) (c : list ref) (x : ref) :
  ancestors h s c → x ∈ c →
  ∃ c1 c2, c = (c1 ++ x :: c2)%list ∧ ancestors h (Some x) (x :: c2).
Proof.
  induction 1 as [|r up chain Hp Hc IH]; intros Hin.
  - now apply elem_of_nil in Hin.
  - apply elem_of_cons in Hin as [-> | Hin].
    + exists [], chain. split; [reflexivity |]. now apply ancestors_step with up.
    + destruct (IH Hin) as (c1 & c2 & -> & Hx).
      now exists (r :: c1), c2.
Qed.

(** A chain that reaches the root visits no folder twice. *)
Lemma ancestors_NoDup (h : gmap ref obj) (s : option ref) (c : list ref) :
  ancestors h s c → NoDup c.
Proof.
  induction 1 as [|r up chain Hp Hc IH]; constructor; [| exact IH].
  intros Hin. destruct (ancestors_suffix _ _ _ _ Hc Hin) as (c1 & c2 & E & Hx).
  pose proof (ancestors_functional _ _ _ _ Hx (ancestors_step _ _ _ _ Hp Hc)) as E'.
  injection E' as E'. subst c2. apply (f_equal List.length) in E.
  rewrite length_app in E. simpl in E. lia.
Qed.

Lemma ancestors_ext (h h' : gmap ref obj) (s : option ref) (c : list ref) :
  (∀ r, folder_parent h r = folder_parent h' r) →
  ancestors h s c → ancestors h' s c.
Proof.
  intros E. induction 1 as [|r up chain Hp _ IH]; [constructor |].
  apply ancestors_step with up; [now rewrite <- E | exact IH].
Qed.

Lemma folder_parent_bump (h : gmap ref obj) (r x : ref) (o : obj) :
  h !! r = Some o → folder_parent (<[r := bump o]> h) x = folder_parent h x.
Proof.
  intros Ho. unfold folder_parent. destruct (decide (r = x)) as [-> | Hne].
  - rewrite lookup_insert_eq, Ho. now destruct o.
  - now rewrite lookup_insert_ne.
Qed.

Lemma ancestors_bump (h : gmap ref obj) (r : ref) (o : obj) (s : option ref)
    (c : list ref) :
  h !! r = Some o → ancestors (<[r := bump o]> h) s c ↔ ancestors h s c.
Proof.
  intros Ho. split; apply ancestors_ext; intros x;
    [| symmetry]; now apply folder_parent_bump.
Qed.

Lemma bumped_nil (h : gmap ref obj) : bumped [] h h.
Proof. intros r. reflexivity. Qed.

(** Incrementing one more object, not touched so far. *)
Lemma bumped_cons (h h' : gmap ref obj) (r : ref) (o : obj) (touched : list ref) :
  h !! r = Some o → r ∉ touched →
  bumped touched (<[r := bump o]> h) h' → bumped (r :: touched) h h'.
Proof.
  intros Ho Hnin Hb x. rewrite (Hb x).
  destruct (decide (x = r)) as [-> | Hne].
  - rewrite (bool_decide_eq_false_2 _ Hnin), lookup_insert_eq.
    rewrite bool_decide_eq_true_2 by (apply elem_of_cons; now left).
    now rewrite Ho.
  - rewrite lookup_insert_ne by congruence.
    destruct (decide (x ∈ touched)) as [Hin | Hin'].
    + rewrite !bool_decide_eq_true_2; [reflexivity | | assumption].
      apply elem_of_cons; now right.
    + rewrite !bool_decide_eq_false_2; [reflexivity | | assumption].
      intros [-> | ?]%elem_of_cons; contradiction.
Qed.

(** [increment_usage_count] returns only after following the parents up
    to the root, and then has incremented every folder on the way once. *)
Lemma increment_usage_count_spec (depth : nat) (h h' : gmap ref obj) (r : ref) :
  Folder.increment_usage_count depth h r = Ok h' →
  ∃ chain, ancestors h (Some r) chain ∧ bumped chain h h'.
Proof.
  revert h h' r. induction depth as [|d IH]; intros h h' r H; [discriminate |].
  simpl in H. apply bind_Ok in H as (f & Hget & H).
  unfold Folder.get in Hget.
  destruct (h !! r) as [[f0| |]|] eqn:Hr; try discriminate.
  injection Hget as ->.
  change (OFolder (FolderObj.set_usageCount f (FolderObj.usageCount f + 1)))
    with (bump (OFolder f)) in H.
  assert (folder_parent h r = Some (FolderObj.parent f)) as Hp.
  { unfold folder_parent. now rewrite Hr. }
  destruct (FolderObj.parent f) as [up|] eqn:Hup.
  - destruct (IH _ _ _ H) as (chain & Hanc & Hb).
    apply (ancestors_bump _ _ _ _ _ Hr) in Hanc.
    assert (ancestors h (Some r) (r :: chain)) as Hanc'
      by now apply ancestors_step with (Some up).
    exists (r :: chain). split; [exact Hanc' |].
    apply (bumped_cons _ _ _ _ _ Hr); [| exact Hb].
    apply ancestors_NoDup in Hanc'. now inversion Hanc'.
  - injection H as <-. exists [r]. split.
    + apply ancestors_step with None; [exact Hp | constructor].
    + apply (bumped_cons _ _ _ _ _ Hr); [apply not_elem_of_nil | apply bumped_nil].
Qed.

(** With a chain to the root no longer than the recursion allows, it
    does return. *)
Lemma increment_usage_count_total (depth : nat) (h : gmap ref obj) (r : ref)
    (chain : list ref) :
  ancestors h (Some r) chain → (List.length chain ≤ depth)%nat →
  ∃ h', Folder.increment_usage_count depth h r = Ok h'.
Proof.
  revert h r chain. induction depth as [|d IH]; intros h r chain Hanc Hlen.
  - inversion Hanc; subst. simpl in Hlen. lia.
  - inversion Hanc as [|r' up chain' Hp Hanc' E1]; subst. simpl in *.
    unfold folder_parent in Hp. unfold Folder.get.
    destruct (h !! r) as [[f| |]|] eqn:Hr; try discriminate.
    injection Hp as <-. simpl.
    destruct (FolderObj.parent f) as [up|] eqn:Hup; [| eauto].
    change (OFolder (FolderObj.set_usageCount f (FolderObj.usageCount f + 1)))
      with (bump (OFolder f)).
    apply (IH _ _ chain'); [| lia].
    now apply (ancestors_bump _ _ _ _ _ Hr).
Qed.

End Tree.

(** ** Building expansions *)

Section Build.

Lemma usage_bump (o : obj) : usage (bump o) = usage o + 1.
Proof. now destruct o. Qed.

Lemma ancestors_folders (h : gmap ref obj) (s : option ref) (c : list ref) (x : ref) :
  ancestors h s c → x ∈ c → ∃ f, h !! x = Some (OFolder f).
Proof.
  induction 1 as [|r up chain Hp _ IH]; intros Hin.
  - now apply elem_of_nil in Hin.
  - apply elem_of_cons in Hin as [-> | Hin]; [| now apply IH].
    unfold folder_parent in Hp. destruct (h !! r) as [[f| |]|]; try discriminate.
    now exists f.
Qed.

(** A check that returns has a non-empty abbreviation to look for. *)
Lemma should_trigger_Ok_abbreviation (self : AbstractAbbreviation.t) (buffer : string)
    (fires : bool) :
  AbstractAbbreviation._should_trigger_abbreviation self buffer = Ok fires →
  ∃ a, AbstractAbbreviation.abbreviation self = Some a ∧ a ≠ EmptyString.
Proof.
  unfold AbstractAbbreviation._should_trigger_abbreviation,
    AbstractAbbreviation._partition_input.
  destruct (AbstractAbbreviation.abbreviation self) as [[|c a]|];
    destruct (AbstractAbbreviation.ignoreCase self); simpl; try discriminate;
    intros _; now exists (String c a).
Qed.

Lemma match_case_string (typedAbbr : string) (e : Expansion.t) :
  Expansion.string (Phrase.match_case typedAbbr e)
    = mirror_case typedAbbr (Expansion.string e).
Proof.
  unfold Phrase.match_case, mirror_case.
  destruct (PyStr.istitle typedAbbr); [reflexivity |].
  destruct (PyStr.isupper typedAbbr); [reflexivity |].
  now destruct (PyStr.islower typedAbbr).
Qed.

Lemma match_case_backspaces (typedAbbr : string) (e : Expansion.t) :
  Expansion.backspaces (Phrase.match_case typedAbbr e) = Expansion.backspaces e.
Proof.
  unfold Phrase.match_case.
  destruct (PyStr.istitle typedAbbr); [reflexivity |].
  destruct (PyStr.isupper typedAbbr); [reflexivity |].
  now destruct (PyStr.islower typedAbbr).
Qed.

(** The store part of a build: the leaf's counter, then the parent's
    [increment_usage_count]. *)
Lemma leaf_build_store (depth : nat) (h h' : gmap ref obj) (self : ref)
    (buffer : string) (out : Z * string) :
  leaf_build depth h self buffer = Ok (h', out) →
  ∃ o up, h !! self = Some o ∧ is_leaf o = true ∧ leaf_parent o = Some up ∧
          Folder.increment_usage_count depth (<[self := bump o]> h) up = Ok h'.
Proof.
  unfold leaf_build. destruct (h !! self) as [[f|p|s]|] eqn:Hs; try discriminate.
  - intros H. apply bind_Ok in H as ([h1 e] & H & Hout).
    injection Hout as <- _.
    unfold Phrase.build_phrase, Phrase.get in H. rewrite Hs in H. simpl in H.
    destruct (PhraseObj.parent p) as [up|] eqn:Hup; [| discriminate].
    simpl in H. apply bind_Ok in H as (h2 & Hinc & H).
    apply bind_Ok in H as ([e1 found] & _ & H).
    apply bind_Ok in H as (e2 & _ & H). injection H as <- _.
    exists (OPhrase p), up. auto.
  - intros H.
    unfold Script.process_buffer, Script.get in H. rewrite Hs in H. simpl in H.
    destruct (ScriptObj.parent s) as [up|] eqn:Hup; [| discriminate].
    simpl in H. apply bind_Ok in H as (h2 & Hinc & H).
    apply bind_Ok in H as ([[bs str] found] & _ & H).
    apply bind_Ok in H as (bs2 & _ & H). injection H as <- _.
    exists (OScript s), up. auto.
Qed.

(** The build of a leaf whose trigger fired. *)
Lemma leaf_build_triggered (depth : nat) (h h' : gmap ref obj) (self up : ref)
    (o : obj) (buffer before matched after a : string) :
  h !! self = Some o → is_leaf o = true → leaf_parent o = Some up →
  Folder.increment_usage_count depth (<[self := bump o]> h) up = Ok h' →
  mode_in ABBREVIATION (leaf_modes o) = true →
  AbstractAbbreviation._should_trigger_abbreviation (leaf_abbr o) buffer = Ok true →
  AbstractAbbreviation._partition_input (leaf_abbr o) buffer
    = Ok (before, matched, after) →
  AbstractAbbreviation.abbreviation (leaf_abbr o) = Some a →
  leaf_build depth h self buffer =
    Ok (h',
        (if AbstractAbbreviation.backspace (leaf_abbr o)
         then PyStr.len a + PyStr.len after else PyStr.len after,
         let s := leaf_text o +:+ (if leaf_omitTrigger o then EmptyString else after) in
         if leaf_matchCase o then mirror_case matched s else s)).
Proof.
  intros Hs Hleaf Hup Hinc Hmode Hfire Hpart Ha.
  unfold leaf_build. rewrite Hs. destruct o as [f|p|s]; [discriminate | |]; simpl in *.
  - unfold Phrase.build_phrase, Phrase.get. rewrite Hs. simpl.
    rewrite Hup. simpl. rewrite Hinc. simpl.
    rewrite Hmode, Hfire. simpl. rewrite Hpart. simpl. rewrite Ha.
    destruct (AbstractAbbreviation.backspace (PhraseObj.abbr p)),
      (PhraseObj.omitTrigger p), (PhraseObj.matchCase p); simpl;
      rewrite ?match_case_string, ?match_case_backspaces, ?append_empty_r;
      reflexivity.
  - unfold Script.process_buffer, Script.get. rewrite Hs. simpl.
    rewrite Hup. simpl. rewrite Hinc. simpl.
    rewrite Hmode, Hfire. simpl. rewrite Hpart. simpl. rewrite Ha.
    destruct (AbstractAbbreviation.backspace (ScriptObj.abbr s)),
      (ScriptObj.omitTrigger s); reflexivity.
Qed.

End Build.

Section BuildTheorems.



(** C5: a build that returns has incremented the usage count of the
    leaf and of every folder on the way from its parent up to the root
    folder, each exactly once, and has left every other object as it was. *)
Theorem usage_count_propagation (depth : nat) (h h' : gmap ref obj) (self : ref)
    (buffer : string) (out : Z * string) :
  leaf_build depth h self buffer = Ok (h', out) →
  ∃ o chain,
    h !! self = Some o ∧ is_leaf o = true ∧
    ancestors h (leaf_parent o) chain ∧ chain ≠ [] ∧
    NoDup (self :: chain) ∧
    (∀ r, r ∈ self :: chain →
          ∃ o_r, h !! r = Some o_r ∧ h' !! r = Some (bump o_r) ∧
                 usage (bump o_r) = usage o_r + 1) ∧
    (∀ r, r ∉ self :: chain → h' !! r = h !! r).
Proof.
  intros H. destruct (leaf_build_store _ _ _ _ _ _ H) as (o & up & Hs & Hleaf & Hup & Hinc).
  destruct (increment_usage_count_spec _ _ _ _ Hinc) as (chain & Hanc & Hb).
  apply (ancestors_bump _ _ _ _ _ Hs) in Hanc.
  assert (self ∉ chain) as Hnin.
  { intros Hin. destruct (ancestors_folders _ _ _ _ Hanc Hin) as [f Hf].
    rewrite Hs in Hf. injection Hf as ->. discriminate. }
  pose proof (bumped_cons _ _ _ _ _ Hs Hnin Hb) as Hall.
  exists o, chain. rewrite Hup.
  split; [exact Hs |]. split; [exact Hleaf |]. split; [exact Hanc |].
  split; [inversion Hanc; discriminate |].
  split; [constructor; [exact Hnin | now apply ancestors_NoDup in Hanc] |].
  split.
  - intros r Hr. specialize (Hall r). rewrite (bool_decide_eq_true_2 _ Hr) in Hall.
    assert (∃ o_r, h !! r = Some o_r) as [o_r Ho].
    { apply elem_of_cons in Hr as [-> | Hr]; [eauto |].
      destruct (ancestors_folders _ _ _ _ Hanc Hr) as [f Hf]. eauto. }
    exists o_r. rewrite Hall, Ho. auto using usage_bump.
  - intros r Hr. specialize (Hall r). now rewrite (bool_decide_eq_false_2 _ Hr) in Hall.
Qed.

Lemma usage_count_propagation_witness :
  ∃ h' out o chain,
    leaf_build 5 (sample_tree (abbreviation_config "btw") false false) 2%nat
      "hello btw " = Ok (h', out) ∧
    sample_tree (abbreviation_config "btw") false false !! 2%nat = Some o ∧
    chain ≠ [] ∧
    (∀ r, r ∈ 2%nat :: chain →
          ∃ o_r, sample_tree (abbreviation_config "btw") false false !! r = Some o_r ∧
                 h' !! r = Some (bump o_r) ∧ usage (bump o_r) = usage o_r + 1).
Proof.
  assert (∃ h1 out1,
            leaf_build 5 (sample_tree (abbreviation_config "btw") false false) 2%nat
              "hello btw " = Ok (h1, out1)) as (h1 & out1 & E).
  { eexists. eexists. vm_compute. reflexivity. }
  destruct (usage_count_propagation 5 _ h1 2%nat "hello btw " out1 E)
    as (o & chain & Ho & _ & _ & Hne & _ & Hin & _).
  exists h1, out1, o, chain. auto.
Defined.

(** After one build of the sample phrase every counter on its path
    stands at one; the script beside it is untouched. *)
Example usage_counts_sample :
  ∃ h' out,
    leaf_build 5 (sample_tree (abbreviation_config "btw") false false) 2%nat
      "hello btw " = Ok (h', out) ∧
    usage <$> (h' !! 2%nat) = Some 1 ∧ usage <$> (h' !! 1%nat) = Some 1 ∧
    usage <$> (h' !! 0%nat) = Some 1 ∧ usage <$> (h' !! 3%nat) = Some 0.
Proof.
  eexists. eexists. split; [vm_compute; reflexivity |].
  repeat split; vm_compute; reflexivity.
Qed.

Lemma upper_not_lower (c : ascii) : PyStr.isupper_c c = true → PyStr.islower_c c = false.
Proof. destruct c as [[] [] [] [] [] [] [] []]; intros H; try reflexivity; discriminate H. Qed.

Lemma islower_from_no_upper (cased : bool) (s : string) :
  PyStr.islower_from cased s = true → has_upper s = false.
Proof.
  revert cased. induction s as [|c s IH]; intros cased H; simpl in *; [reflexivity |].
  destruct (PyStr.isupper_c c); [discriminate |]. simpl. now apply (IH _ H).
Qed.

Lemma islower_from_cased (s : string) :
  PyStr.islower_from false s = true → ∀ cased, PyStr.isupper_from cased s = false.
Proof.
  induction s as [|c s IH]; intros H cased; simpl in *; [discriminate |].
  destruct (PyStr.isupper_c c) eqn:U; [discriminate |].
  destruct (PyStr.islower_c c) eqn:L; [reflexivity |].
  simpl in H. rewrite orb_false_r. now apply IH.
Qed.

Lemma no_upper_not_title (s : string) :
  has_upper s = false → PyStr.istitle_from false false s = false.
Proof.
  induction s as [|c s IH]; intros H; simpl in *; [reflexivity |].
  apply orb_false_iff in H as [U H]. rewrite U.
  destruct (PyStr.islower_c c); [reflexivity | now apply IH].
Qed.

(** An all-lower abbreviation is neither title-case nor all-upper. *)
Lemma islower_exclusive (s : string) :
  PyStr.islower s = true → PyStr.istitle s = false ∧ PyStr.isupper s = false.
Proof.
  intros H. split.
  - apply no_upper_not_title. now apply (islower_from_no_upper false).
  - now apply islower_from_cased.
Qed.

Lemma mirror_case_ordered (typedAbbr s : string) :
  case_rules_ordered typedAbbr s (mirror_case typedAbbr s).
Proof.
  unfold case_rules_ordered, mirror_case. repeat split.
  - now intros ->.
  - now intros -> ->.
  - intros L. destruct (islower_exclusive _ L) as [-> ->]. now rewrite L.
  - now intros -> -> ->.
Qed.

(** C8, as amended: for a phrase with [matchCase] whose trigger
    succeeds, the output string (the phrase with [after] appended unless
    [omitTrigger]) is capitalised when the typed abbreviation is
    title-case; upper-cased when it is all-upper and not title-case;
    lower-cased when it is all-lower; unchanged otherwise. *)
Theorem build_phrase_case_mirroring (depth : nat) (h h' : gmap ref obj) (self : ref)
    (p : PhraseObj.t) (buffer before matched after : string) (backspaces : Z)
    (out : string) :
  h !! self = Some (OPhrase p) → PhraseObj.matchCase p = true →
  trigger_succeeds (PhraseObj.modes p) (PhraseObj.abbr p) buffer →
  AbstractAbbreviation._partition_input (PhraseObj.abbr p) buffer
    = Ok (before, matched, after) →
  leaf_build depth h self buffer = Ok (h', (backspaces, out)) →
  case_rules_ordered matched
    (PhraseObj.phrase p +:+ (if PhraseObj.omitTrigger p then EmptyString else after))
    out.
Proof.
  intros Hs Hmc [Hmode Hfire] Hpart H.
  destruct (leaf_build_store _ _ _ _ _ _ H) as (o & up & Hs' & Hleaf & Hup & Hinc).
  rewrite Hs in Hs'. injection Hs' as <-.
  destruct (should_trigger_Ok_abbreviation _ _ _ Hfire) as (a & Ha & _).
  rewrite (leaf_build_triggered _ _ _ _ _ _ _ _ _ _ _ Hs Hleaf Hup Hinc Hmode Hfire
             Hpart Ha) in H.
  simpl in H. rewrite Hmc in H. injection H as _ <-.
  apply mirror_case_ordered.
Qed.

(** The examples of section 8, with an immediate abbreviation matched
    without regard to case: "BTW" gives "BY THE WAY", "Btw" gives
    "By the way". *)
Lemma build_phrase_case_mirroring_witness :
  case_rules_ordered "BTW" "by the way" "BY THE WAY" ∧
  case_rules_ordered "Btw" "by the way" "By the way".
Proof.
  pose (cfg := with_flags (abbreviation_config "btw") true true false).
  pose (T := sample_tree cfg false true).
  assert (∃ h1, leaf_build 5 T 2%nat "BTW" = Ok (h1, (3, "BY THE WAY"))) as [h1 E1].
  { eexists. vm_compute. reflexivity. }
  assert (∃ h2, leaf_build 5 T 2%nat "Btw" = Ok (h2, (3, "By the way"))) as [h2 E2].
  { eexists. vm_compute. reflexivity. }
  split.
  - apply (build_phrase_case_mirroring 5 T h1 2%nat
             (PhraseObj.mk cfg no_hotkey "by the way" "by the way" [ABBREVIATION] 0
                false false true (Some 1%nat) false (Some "kb"))
             "BTW" "" "BTW" "" 3 "BY THE WAY");
      [reflexivity | reflexivity | split; reflexivity | reflexivity | exact E1].
  - apply (build_phrase_case_mirroring 5 T h2 2%nat
             (PhraseObj.mk cfg no_hotkey "by the way" "by the way" [ABBREVIATION] 0
                false false true (Some 1%nat) false (Some "kb"))
             "Btw" "" "Btw" "" 3 "By the way");
      [reflexivity | reflexivity | split; reflexivity | reflexivity | exact E2].
Defined.

(** C8 as stated gives all-upper its own rule; a typed abbreviation that
    is title-case and all-upper at once (a single capital, here "X") is
    capitalised by the code, not upper-cased. *)
Lemma case_rules_independent_fail :
  ¬ ∀ (depth : nat) (h h' : gmap ref obj) (self : ref) (p : PhraseObj.t)
      (buffer before matched after : string) (backspaces : Z) (out : string),
      h !! self = Some (OPhrase p) → PhraseObj.matchCase p = true →
      trigger_succeeds (PhraseObj.modes p) (PhraseObj.abbr p) buffer →
      AbstractAbbreviation._partition_input (PhraseObj.abbr p) buffer
        = Ok (before, matched, after) →
      leaf_build depth h self buffer = Ok (h', (backspaces, out)) →
      case_rules_independent matched
        (PhraseObj.phrase p +:+ (if PhraseObj.omitTrigger p then EmptyString else after))
        out.
Proof.
  intros H.
  pose (cfg := with_flags (abbreviation_config "x") true true false).
  pose (T := sample_tree cfg false true).
  assert (∃ h1, leaf_build 5 T 2%nat "X" = Ok (h1, (1, "By the way"))) as [h1 E1].
  { eexists. vm_compute. reflexivity. }
  destruct (H 5%nat T h1 2%nat
              (PhraseObj.mk cfg no_hotkey "by the way" "by the way" [ABBREVIATION] 0
                 false false true (Some 1%nat) false (Some "kb"))
              "X" "" "X" "" 1 "By the way")
    as (_ & Hupper & _);
    [reflexivity | reflexivity | split; reflexivity | reflexivity | exact E1 |].
  specialize (Hupper eq_refl). discriminate Hupper.
Qed.




End BuildTheorems.

(** ** Cursor positioning *)

Section CursorPosition.

Variable CURSOR_POSITION_TOKEN : string.
Hypothesis token_not_empty : CURSOR_POSITION_TOKEN ≠ EmptyString.

Lemma find_split_sound (sep s b a : string) :
  PyStr.find_split sep s = Some (b, a) → occurs_at sep s b a.
Proof.
  unfold occurs_at. revert b a. induction s as [|c s IH]; intros b a H; simpl in H.
  - destruct (PyStr.startswith EmptyString sep) eqn:P; [| discriminate].
    injection H as <- <-. now apply startswith_split.
  - destruct (PyStr.startswith (String c s) sep) eqn:P.
    + injection H as <- <-. now apply startswith_split.
    + destruct (PyStr.find_split sep s) as [[b0 a0]|]; [| discriminate].
      injection H as <- <-. simpl. f_equal. now apply IH.
Qed.

Lemma find_split_shorter (sep s b a : string) :
  sep ≠ EmptyString → PyStr.find_split sep s = Some (b, a) →
  (String.length a < String.length s)%nat.
Proof.
  intros Hne H. apply find_split_sound in H. unfold occurs_at in H. subst s.
  rewrite !length_append. destruct sep; [congruence | simpl; lia].
Qed.

Lemma find_split_empty (sep : string) :
  sep ≠ EmptyString → PyStr.find_split sep EmptyString = None.
Proof. destruct sep; [congruence | reflexivity]. Qed.

(** The fuel of [count] and [split] is never the reason to stop. *)
Lemma count_fuel_enough (sep : string) (fuel : nat) (s : string) :
  sep ≠ EmptyString → (String.length s ≤ fuel)%nat →
  PyStr.count_fuel fuel sep s = PyStr.count s sep.
Proof.
  intros Hne. unfold PyStr.count.
  remember (String.length s) as n eqn:Hn. revert s fuel Hn.
  induction n as [n IH] using lt_wf_ind. intros s fuel -> Hle.
  destruct fuel as [|fuel].
  - assert (s = EmptyString) as -> by (apply length_zero_empty; lia). reflexivity.
  - destruct s as [|c s].
    + cbn [PyStr.count_fuel String.length]. now rewrite find_split_empty.
    + cbn [PyStr.count_fuel String.length].
      destruct (PyStr.find_split sep (String c s)) as [[b a]|] eqn:E; [| reflexivity].
      pose proof (find_split_shorter _ _ _ _ Hne E) as Hlt. simpl in Hlt. f_equal.
      rewrite (IH (String.length a) ltac:(simpl; lia) a fuel eq_refl ltac:(simpl in *; lia)).
      symmetry.
      apply (IH (String.length a) ltac:(simpl; lia) a (String.length s) eq_refl).
      lia.
Qed.

Lemma split_fuel_length (sep : string) (fuel : nat) (s : string) :
  List.length (PyStr.split_fuel fuel sep s) = S (PyStr.count_fuel fuel sep s).
Proof.
  revert s. induction fuel as [|fuel IH]; intros s; simpl; [reflexivity |].
  destruct (PyStr.find_split sep s) as [[b a]|]; simpl; [| reflexivity].
  now rewrite IH.
Qed.

Lemma split_fuel_no_more (sep : string) (fuel : nat) (s : string) :
  PyStr.count_fuel fuel sep s = 0%nat → PyStr.split_fuel fuel sep s = [s].
Proof.
  destruct fuel as [|fuel]; simpl; [reflexivity |].
  destruct (PyStr.find_split sep s) as [[b a]|]; [discriminate | reflexivity].
Qed.

Lemma contains_count (s : string) :
  PyStr.contains s CURSOR_POSITION_TOKEN
    = negb (PyStr.count s CURSOR_POSITION_TOKEN =? 0)%nat.
Proof.
  unfold PyStr.contains, PyStr.count. destruct s as [|c s].
  - cbn [String.length PyStr.count_fuel]. now rewrite find_split_empty.
  - cbn [String.length PyStr.count_fuel].
    now destruct (PyStr.find_split CURSOR_POSITION_TOKEN (String c s)) as [[b a]|].
Qed.

(** C10: [parsePositionTokens] on an expansion whose string holds the
    cursor marker [n] times ([n] as [str.count] counts: left to right,
    without overlap): for [n = 0] the expansion is returned as it is; for
    [n = 1] the result's string is the text before the marker followed by
    the text after it; for [n >= 2] the two-way unpacking of the split
    raises [ValueError] and no expansion is returned. *)
Theorem parsePositionTokens_marker_count (expansion : Expansion.t) :
  let s := Expansion.string expansion in
  let n := PyStr.count s CURSOR_POSITION_TOKEN in
  (n = 0%nat → Phrase.parsePositionTokens CURSOR_POSITION_TOKEN expansion = Ok expansion) ∧
  (n = 1%nat →
   ∃ firstpart secondpart expansion',
     s = firstpart +:+ CURSOR_POSITION_TOKEN +:+ secondpart ∧
     Phrase.parsePositionTokens CURSOR_POSITION_TOKEN expansion = Ok expansion' ∧
     Expansion.string expansion' = firstpart +:+ secondpart) ∧
  ((2 ≤ n)%nat →
   Phrase.parsePositionTokens CURSOR_POSITION_TOKEN expansion = Raise ValueError).
Proof.
  intros s n. unfold Phrase.parsePositionTokens. fold s.
  rewrite contains_count. fold n.
  assert (PyStr.split s CURSOR_POSITION_TOKEN
          = Ok (PyStr.split_fuel (String.length s) CURSOR_POSITION_TOKEN s)) as Hsplit.
  { unfold PyStr.split. destruct CURSOR_POSITION_TOKEN; [congruence | reflexivity]. }
  rewrite Hsplit. simpl.
  repeat split.
  - now intros ->.
  - intros Hn. rewrite Hn. simpl.
    unfold n, PyStr.count in Hn.
    destruct (String.length s) as [|fuel] eqn:Hlen; [discriminate |].
    simpl in *.
    destruct (PyStr.find_split CURSOR_POSITION_TOKEN s) as [[b a]|] eqn:E;
      [| discriminate].
    injection Hn as Hn. rewrite (split_fuel_no_more _ _ _ Hn).
    exists b, a. eexists. split; [now apply find_split_sound |].
    split; reflexivity.
  - intros Hn.
    pose proof (split_fuel_length CURSOR_POSITION_TOKEN (String.length s) s) as Hl.
    fold (PyStr.count s CURSOR_POSITION_TOKEN) in Hl. fold n in Hl.
    destruct n as [|[|n']]; [lia | lia |]. simpl.
    destruct (PyStr.split_fuel (String.length s) CURSOR_POSITION_TOKEN s)
      as [|x [|y [|z l]]]; simpl in Hl; try lia. reflexivity.
Qed.

End CursorPosition.

Lemma parsePositionTokens_marker_count_witness :
  ("%|" ≠ EmptyString) ∧
  Phrase.parsePositionTokens "%|" (Expansion.init "Dear ,<enter>Regards")
    = Ok (Expansion.init "Dear ,<enter>Regards") ∧
  (∃ expansion',
     Phrase.parsePositionTokens "%|" (Expansion.init "Dear %|,") = Ok expansion' ∧
     Expansion.string expansion' = "Dear ,") ∧
  Phrase.parsePositionTokens "%|" (Expansion.init "a%|b%|c") = Raise ValueError.
Proof.
  assert ("%|" ≠ EmptyString) as Hne by discriminate.
  split; [exact Hne |]. split; [| split].
  - destruct (parsePositionTokens_marker_count "%|" Hne
                (Expansion.init "Dear ,<enter>Regards")) as (H0 & _ & _).
    exact (H0 eq_refl).
  - destruct (parsePositionTokens_marker_count "%|" Hne
                (Expansion.init "Dear %|,")) as (_ & H1 & _).
    destruct (H1 eq_refl) as (f & s & e' & Hs & He & Hstr).
    exists e'. split; [exact He |].
    rewrite He in *. vm_compute. vm_compute in He. now injection He as <-.
  - destruct (parsePositionTokens_marker_count "%|" Hne
                (Expansion.init "a%|b%|c")) as (_ & _ & H2).
    apply H2. vm_compute. lia.
Defined.

(** ** Loading persisted phrases *)

Section Loading.

Variable re_compile : string → result Regex.

Lemma getitem_missing (m : gmap string json) (key : string) :
  m !! key = None → Py.getitem (JObj m) key = Raise (KeyError key).
Proof. intros H. unfold Py.getitem. now rewrite H. Qed.

Lemma getitem_insert_ne (m : gmap string json) (key other : string) (v : json) :
  other ≠ key →
  Py.getitem (JObj (<[other := v]> m)) key = Py.getitem (JObj m) key.
Proof. intros H. unfold Py.getitem. now rewrite lookup_insert_ne. Qed.

Lemma raises_bind {A B : Type} (m : result A) (k : A → result B) :
  (∀ a, raises (k a)) → raises (bind m k).
Proof.
  intros H. destruct m as [a|e]; simpl; [apply H | now exists e].
Qed.

Lemma raises_here {A B : Type} (e : exn) (k : A → result B) :
  raises (bind (Raise e) k).
Proof. now exists e. Qed.

(** An absent key makes [get_value_or_default] answer the default; a
    present one its value. *)
Lemma get_value_or_default_absent (m : gmap string json) (key : string) (default : json) :
  m !! key = None → get_value_or_default (JObj m) key default = Ok default.
Proof.
  intros H. unfold get_value_or_default. simpl.
  rewrite bool_decide_eq_false_2; [reflexivity |].
  rewrite H. now intros [? ?].
Qed.

Lemma get_value_or_default_present (m : gmap string json) (key : string)
    (v default : json) :
  get_value_or_default (JObj (<[key := v]> m)) key default = Ok v.
Proof.
  unfold get_value_or_default. simpl.
  rewrite lookup_insert_eq. rewrite bool_decide_eq_true_2; [reflexivity | eauto].
Qed.

Ltac missing H :=
  repeat (first [ rewrite (getitem_missing _ _ H); apply raises_here
                | apply raises_bind; intros ? ]).

(** C9: a persisted phrase without the optional ["sendMode"] entry loads
    whenever it loads with some ["sendMode"] added, and then carries
    [SendMode.KEYBOARD], its other attributes being the same; a persisted
    phrase without one of the required entries does not load: the call
    raises. *)
Theorem load_phrase_optional_and_required (m : gmap string json) (parent : option ref) :
  (m !! "sendMode" = None →
   ∀ v p, Load.Phrase_load_from_serialized re_compile (JObj (<["sendMode" := v]> m))
            parent = Ok p →
          Load.Phrase_load_from_serialized re_compile (JObj m) parent
            = Ok (with_sendMode p SendMode.KEYBOARD)) ∧
  (∀ key, key ∈ required_fields → m !! key = None →
          raises (Load.Phrase_load_from_serialized re_compile (JObj m) parent)).
Proof.
  split.
  - intros Hnone v p.
    unfold Load.Phrase_load_from_serialized.
    rewrite !getitem_insert_ne by discriminate.
    rewrite get_value_or_default_present, (get_value_or_default_absent _ _ _ Hnone).
    intros H.
    repeat (cbn [bind] in H;
            let E := fresh "E" in
            apply bind_Ok in H as (? & E & H); rewrite E; cbn [bind]; clear E).
    injection H as <-. reflexivity.
  - intros key Hkey Hmiss. unfold required_fields in Hkey.
    unfold Load.Phrase_load_from_serialized.
    repeat (apply elem_of_cons in Hkey as [-> | Hkey]; [missing Hmiss |]).
    now apply elem_of_nil in Hkey.
Qed.

(** A missing description or phrase is reported under its key. *)
Lemma load_phrase_missing_description (m : gmap string json) (parent : option ref) :
  m !! "description" = None →
  Load.Phrase_load_from_serialized re_compile (JObj m) parent
    = Raise (KeyError "description").
Proof.
  intros H. unfold Load.Phrase_load_from_serialized.
  now rewrite (getitem_missing _ _ H).
Qed.

Lemma load_phrase_missing_phrase (m : gmap string json) (parent : option ref) (d : json) :
  m !! "description" = Some d → m !! "phrase" = None →
  Load.Phrase_load_from_serialized re_compile (JObj m) parent
    = Raise (KeyError "phrase").
Proof.
  intros Hd H. unfold Load.Phrase_load_from_serialized.
  rewrite (getitem_missing _ _ H). unfold Py.getitem at 1. now rewrite Hd.
Qed.

(** The entries of the nested dictionaries are required as well. *)
Lemma load_phrase_missing_nested (m ma mh : gmap string json) (parent : option ref)
    (key : string) :
  (m !! "abbreviation" = Some (JObj ma) ∧ key ∈ required_abbreviation_fields
   ∧ ma !! key = None) ∨
  (m !! "hotkey" = Some (JObj mh) ∧ key ∈ required_hotkey_fields ∧ mh !! key = None) →
  raises (Load.Phrase_load_from_serialized re_compile (JObj m) parent).
Proof.
  intros [(Hm & Hkey & Hmiss) | (Hm & Hkey & Hmiss)];
    unfold Load.Phrase_load_from_serialized.
  - assert (raises (Load.AbstractAbbreviation_load_from_serialized re_compile (JObj ma)))
      as [e He].
    { unfold Load.AbstractAbbreviation_load_from_serialized,
        required_abbreviation_fields in *.
      repeat (apply elem_of_cons in Hkey as [-> | Hkey]; [missing Hmiss |]).
      now apply elem_of_nil in Hkey. }
    do 9 (apply raises_bind; intros ?).
    unfold Py.getitem at 1. rewrite Hm. simpl. rewrite He. now exists e.
  - assert (raises (Load.AbstractHotkey_load_from_serialized (JObj mh)))
      as [e He].
    { unfold Load.AbstractHotkey_load_from_serialized, required_hotkey_fields in *.
      repeat (apply elem_of_cons in Hkey as [-> | Hkey]; [missing Hmiss |]).
      now apply elem_of_nil in Hkey. }
    do 11 (apply raises_bind; intros ?).
    unfold Py.getitem at 1. rewrite Hm. simpl. rewrite He. now exists e.
Qed.

End Loading.

Lemma load_phrase_optional_and_required_witness :
  sample_record !! "sendMode" = None ∧
  (∃ p, Load.Phrase_load_from_serialized compile_default (JObj sample_record) None
          = Ok p ∧
        Load.sendMode p = SendMode.KEYBOARD) ∧
  raises (Load.Phrase_load_from_serialized compile_default
            (JObj (delete "phrase" sample_record)) None).
Proof.
  assert (sample_record !! "sendMode" = None) as Hnone by reflexivity.
  split; [exact Hnone |]. split.
  - destruct (load_phrase_optional_and_required compile_default sample_record None)
      as [Hopt _].
    assert (∃ p, Load.Phrase_load_from_serialized compile_default
                   (JObj (<["sendMode" := JStr "<ctrl>+v"]> sample_record)) None
                 = Ok p) as [p Hp].
    { eexists. vm_compute. reflexivity. }
    exists (with_sendMode p SendMode.KEYBOARD). split; [| reflexivity].
    exact (Hopt Hnone _ _ Hp).
  - destruct (load_phrase_optional_and_required compile_default
                (delete "phrase" sample_record) None) as [_ Hreq].
    apply (Hreq "phrase"); [| reflexivity].
    unfold required_fields. apply elem_of_cons. right. apply elem_of_cons. now left.
Defined.

(** ** [send_string]: modifier isolation *)

Section ModifierIsolation.

Import IoMediator.

Lemma presses_app (m : string) (l k : list call) :
  presses m (l ++ k) = (presses m l + presses m k)%nat.
Proof. apply count_occ_app. Qed.

Lemma reapply_fold (self : t) (l : list string) :
  let self' := fold_left (fun (self : t) modifier => invoke self (press_key modifier))
                 l self in
  modifiers self' = modifiers self ∧
  releasedModifiers self' = releasedModifiers self ∧
  interface self' = (interface self ++ List.map press_key l)%list.
Proof.
  revert self. induction l as [|m l IH]; intros self; simpl.
  - now rewrite app_nil_r.
  - destruct (IH (invoke self (press_key m))) as (E1 & E2 & E3).
    rewrite E1, E2, E3. simpl. now rewrite <- app_assoc.
Qed.

Lemma reapplyModifiers_spec (self : t) :
  releasedModifiers (__reapplyModifiers self) = releasedModifiers self ∧
  interface (__reapplyModifiers self)
    = (interface self ++ List.map press_key (releasedModifiers self))%list.
Proof.
  unfold __reapplyModifiers.
  destruct (reapply_fold self (releasedModifiers self)) as (_ & E2 & E3). auto.
Qed.

Lemma presses_map_press (m : string) (l : list string) :
  presses m (List.map press_key l) = count_occ string_dec l m.
Proof.
  unfold presses. induction l as [|x l IH]; cbn [List.map count_occ]; [reflexivity |].
  destruct (call_eq_dec (press_key x) (press_key m)) as [E | N];
    destruct (string_dec x m) as [E' | N']; try congruence; now rewrite IH.
Qed.

Lemma presses_sends (m : string) (l : list call) :
  forallb is_send l = true → presses m l = 0%nat.
Proof.
  unfold presses. induction l as [|c l IH]; cbn [forallb count_occ]; [reflexivity |].
  intros [Hc Hl]%andb_true_iff.
  destruct (call_eq_dec c (press_key m)) as [-> | _]; [discriminate | auto].
Qed.

(** A section adds calls that send content, and nothing else. *)
Lemma send_section_spec (self : t) (mods : list string) (section : string) :
  ∃ sent,
    forallb is_send sent = true ∧
    releasedModifiers (send_section self mods section).1 = releasedModifiers self ∧
    interface (send_section self mods section).1 = (interface self ++ sent)%list.
Proof.
  unfold send_section.
  destruct (_ && _ && _).
  - exists []. simpl. now rewrite app_nil_r.
  - destruct (0 <? List.length mods)%nat.
    + destruct (Key.is_key section).
      * now exists [send_modified_key section mods].
      * destruct (1 <? String.length section)%nat.
        -- exists [send_modified_key (first_str section) mods;
                   send_string_call (rest_str section)].
           simpl. now rewrite <- app_assoc.
        -- now exists [send_modified_key (first_str section) mods].
    + destruct (Key.is_key section).
      * now exists [send_key section].
      * now exists [send_string_call section].
Qed.

(** Each turn of the loop presses every released modifier again. *)
Lemma send_string_step_spec (self : t) (mods : list string) (section : string)
    (m : string) :
  releasedModifiers (send_string_step (self, mods) section).1 = releasedModifiers self ∧
  presses m (interface (send_string_step (self, mods) section).1)
    = (presses m (interface self) + count_occ string_dec (releasedModifiers self) m)%nat.
Proof.
  unfold send_string_step.
  assert (∃ sent self' mods',
            (if (0 <? String.length section)%nat
             then send_section self mods section else (self, mods)) = (self', mods') ∧
            forallb is_send sent = true ∧
            releasedModifiers self' = releasedModifiers self ∧
            interface self' = (interface self ++ sent)%list)
    as (sent & self' & mods' & -> & Hs & Hr & Hi).
  { destruct (0 <? String.length section)%nat.
    - destruct (send_section_spec self mods section) as (sent & Hs & Hr & Hi).
      exists sent. destruct (send_section self mods section) as [self' mods'].
      now exists self', mods'.
    - exists [], self, mods. simpl. now rewrite app_nil_r. }
  cbn [fst]. destruct (reapplyModifiers_spec self') as [E1 E2].
  rewrite E1, E2, Hr, Hi. split; [reflexivity |].
  now rewrite !presses_app, presses_map_press, (presses_sends _ _ Hs), Nat.add_0_r.
Qed.

Lemma send_string_loop_spec (sections : list string) (self : t) (mods : list string)
    (m : string) :
  releasedModifiers (fold_left send_string_step sections (self, mods)).1
    = releasedModifiers self ∧
  presses m (interface (fold_left send_string_step sections (self, mods)).1)
    = (presses m (interface self)
       + List.length sections * count_occ string_dec (releasedModifiers self) m)%nat.
Proof.
  revert self mods. induction sections as [|section sections IH]; intros self mods.
  - cbn [fold_left fst List.length]. split; [reflexivity | lia].
  - cbn [fold_left List.length].
    pose proof (send_string_step_spec self mods section m) as [E1 E2].
    destruct (send_string_step (self, mods) section) as [self' mods'].
    cbn [fst] in E1, E2. destruct (IH self' mods') as [F1 F2].
    rewrite F1, F2, E1, E2. split; [reflexivity | lia].
Qed.

(** [__clearModifiers] releases, and records, the held modifiers other
    than the two toggles, each once; it presses nothing. *)
Lemma clear_fold (l : list (string * bool)) (self : t) :
  let self' :=
    fold_left
      (fun (self : t) (entry : string * bool) =>
         let '(modifier, held) := entry in
         if held && negb (is_toggle modifier) then
           invoke (mk (modifiers self) (releasedModifiers self ++ [modifier])
                      (interface self))
                  (release_key modifier)
         else self) l self in
  releasedModifiers self' = (releasedModifiers self ++ (List.filter to_release l).*1)%list ∧
  interface self'
    = (interface self ++ List.map release_key (List.filter to_release l).*1)%list.
Proof.
  revert self. induction l as [|[m held] l IH]; intros self.
  - simpl. now rewrite !app_nil_r.
  - cbn [fold_left List.filter].
    change (held && negb (is_toggle m)) with (to_release (m, held)).
    destruct (to_release (m, held)).
    + match goal with |- context [fold_left _ l ?s] => destruct (IH s) as [E1 E2] end.
      cbn zeta in E1, E2. rewrite E1, E2. simpl. now rewrite <- !app_assoc.
    + apply IH.
Qed.

Lemma clearModifiers_spec (self : t) :
  let released := (List.filter to_release (map_to_list (modifiers self))).*1 in
  releasedModifiers (__clearModifiers self) = released ∧
  interface (__clearModifiers self)
    = (interface self ++ List.map release_key released)%list.
Proof.
  unfold __clearModifiers.
  match goal with |- context [fold_left _ _ ?s] =>
    destruct (clear_fold (map_to_list (modifiers self)) s) as [E1 E2] end.
  simpl in *. now rewrite E1, E2.
Qed.

Lemma presses_map_release (m : string) (l : list string) :
  presses m (List.map release_key l) = 0%nat.
Proof.
  unfold presses. induction l as [|x l IH]; cbn [List.map count_occ]; [reflexivity |].
  destruct (call_eq_dec (release_key x) (press_key m)); [discriminate | exact IH].
Qed.

(** The modifiers released are the held ones other than the toggles. *)
Lemma released_iff (self : t) (m : string) :
  m ∈ releasedModifiers (__clearModifiers self) ↔
  modifiers self !! m = Some true ∧ is_toggle m = false.
Proof.
  destruct (clearModifiers_spec self) as [-> _].
  rewrite list_elem_of_fmap. split.
  - intros ([m' held] & -> & Hin). apply list_elem_of_In, filter_In in Hin as [Hin Hrel].
    apply list_elem_of_In, elem_of_map_to_list in Hin.
    unfold to_release in Hrel. simpl in *.
    apply andb_true_iff in Hrel as [-> Ht]. now apply negb_true_iff in Ht.
  - intros [Hm Ht]. exists (m, true). split; [reflexivity |].
    apply list_elem_of_In, filter_In. split.
    + now apply list_elem_of_In, elem_of_map_to_list.
    + unfold to_release. simpl. now rewrite Ht.
Qed.

Lemma released_NoDup (self : t) : NoDup (releasedModifiers (__clearModifiers self)).
Proof.
  destruct (clearModifiers_spec self) as [-> _].
  pose proof (NoDup_fst_map_to_list (modifiers self)) as Hnd.
  induction (map_to_list (modifiers self)) as [|[m held] l IH]; simpl in *.
  - constructor.
  - apply NoDup_cons in Hnd as [Hnin Hnd].
    destruct (to_release (m, held)); simpl; [| now apply IH].
    constructor; [| now apply IH].
    intros Hin. apply Hnin. apply list_elem_of_fmap in Hin as (e & -> & Hin).
    apply list_elem_of_fmap. exists e. split; [reflexivity |].
    apply list_elem_of_In. apply list_elem_of_In, filter_In in Hin. tauto.
Qed.

Lemma count_occ_NoDup_in (l : list string) (m : string) :
  NoDup l → m ∈ l → count_occ string_dec l m = 1%nat.
Proof.
  intros Hnd Hin. apply list_elem_of_In in Hin.
  apply NoDup_ListNoDup in Hnd.
  pose proof (proj1 (List.NoDup_count_occ string_dec l) Hnd m) as Hle.
  apply (count_occ_In string_dec) in Hin. lia.
Qed.

(** For content that is not empty, every modifier [send_string] released
    is pressed again once per section of the split content: once in all
    only when the content has a single section. *)
Lemma send_string_presses (self : t) (string : String.string) (m : String.string) :
  string ≠ EmptyString →
  modifiers self !! m = Some true → is_toggle m = false →
  presses m (interface (send_string self string))
    = (presses m (interface self) + List.length (KEY_SPLIT_RE.split string))%nat.
Proof.
  intros Hne Hheld Htoggle. unfold send_string.
  destruct string as [|c s]; [congruence |].
  cbn [String.length Nat.eqb].
  set (sections := KEY_SPLIT_RE.split (String c s)).
  set (cleared := __clearModifiers (acquire_lock self)).
  destruct (send_string_loop_spec sections cleared [] m) as [_ E].
  destruct (fold_left send_string_step sections (cleared, [])) as [self' mods'].
  cbn [fst] in E. unfold release_lock, invoke. cbn [interface].
  rewrite presses_app, E. subst cleared.
  destruct (clearModifiers_spec (acquire_lock self)) as [_ Hi].
  rewrite Hi. simpl.
  rewrite !presses_app, presses_map_release.
  rewrite (count_occ_NoDup_in _ m (released_NoDup _)).
  - unfold presses at 2 3. simpl. lia.
  - apply released_iff. simpl. auto.
Qed.

(** C6 at content with a key token: with [<ctrl>] held, sending
    ["a<tab>b"] releases [<ctrl>] once and presses it again after each of
    the three sections, so that [<tab>] and ["b"] go out with [<ctrl>]
    down and [<ctrl>] is pressed three times, not once. *)
Theorem send_string_represses_each_section :
  interface (send_string ctrl_held "a<tab>b")
    = [ lock_acquire; release_key "<ctrl>";
        send_string_call "a"; press_key "<ctrl>";
        send_key "<tab>"; press_key "<ctrl>";
        send_string_call "b"; press_key "<ctrl>";
        lock_release ] ∧
  releases "<ctrl>" (interface (send_string ctrl_held "a<tab>b")) = 1%nat ∧
  presses "<ctrl>" (interface (send_string ctrl_held "a<tab>b")) = 3%nat.
Proof. repeat split. Qed.

(** Content without key tokens is one section: there the modifiers are
    released before and pressed once after. *)
Example send_string_plain_text :
  interface (send_string ctrl_held "abc")
    = [ lock_acquire; release_key "<ctrl>"; send_string_call "abc";
        press_key "<ctrl>"; lock_release ].
Proof. reflexivity. Qed.

End ModifierIsolation.

(** * Further properties of the trigger model *)

(** ** Errors and shape of the partition *)

Section PartitionShape.

Import AbstractAbbreviation.

(** The matched text is empty or as long as the abbreviation. *)
Lemma partition_input_parts (self : t) (x buffer b m a : string) :
  abbreviation self = Some x →
  _partition_input self buffer = Ok (b, m, a) →
  x ≠ EmptyString ∧
  ((b = EmptyString ∧ m = EmptyString ∧ a = searched self buffer
    ∧ ¬ occurs x (searched self buffer))
   ∨ (last_occurrence x (searched self buffer) b a
      ∧ String.length m = String.length x)).
Proof.
  intros Hx H.
  assert (x ≠ EmptyString) as Hne.
  { intros ->. unfold _partition_input in H. rewrite Hx in H.
    destruct (ignoreCase self); discriminate H. }
  split; [exact Hne |].
  destruct (PyStr.rfind_split x (searched self buffer)) as [[b0 a0]|] eqn:E.
  - right.
    assert (occurs x (searched self buffer)) as Hocc
      by (exists b0, a0; now apply rfind_split_sound).
    destruct (partition_input_found self x buffer Hx Hne Hocc)
      as (b' & m' & a' & E' & Hlast & Hlen).
    rewrite E' in H. injection H as <- <- <-. auto.
  - left. apply rfind_split_none in E.
    rewrite (partition_input_missing self x buffer Hx Hne E) in H.
    injection H as <- <- <-. auto.
Qed.

(** X1: the partition and the trigger check raise exactly for a missing
    abbreviation ([TypeError]) and for an empty one ([ValueError]); for
    every other configuration and every buffer both return, a buffer
    without the abbreviation giving [False] and not an error. *)
Theorem trigger_check_errors (self : t) (buffer : string) :
  (abbreviation self = None →
   _partition_input self buffer = Raise TypeError ∧
   _should_trigger_abbreviation self buffer = Raise TypeError) ∧
  (abbreviation self = Some EmptyString →
   _partition_input self buffer = Raise ValueError ∧
   _should_trigger_abbreviation self buffer = Raise ValueError) ∧
  (∀ x, abbreviation self = Some x → x ≠ EmptyString →
        (∃ parts, _partition_input self buffer = Ok parts) ∧
        (∃ fires, _should_trigger_abbreviation self buffer = Ok fires) ∧
        (¬ occurs x (searched self buffer) →
         _should_trigger_abbreviation self buffer = Ok false)).
Proof.
  split; [| split].
  - intros H. unfold _should_trigger_abbreviation, _partition_input. rewrite H.
    now destruct (ignoreCase self).
  - intros H. unfold _should_trigger_abbreviation, _partition_input. rewrite H.
    now destruct (ignoreCase self).
  - intros x Hx Hne.
    assert (∃ b m a, _partition_input self buffer = Ok (b, m, a)) as (b & m & a & E).
    { unfold _partition_input, PyStr.rpartition. rewrite Hx.
      destruct x as [|c x]; [congruence |].
      destruct (ignoreCase self);
        match goal with |- context [PyStr.rfind_split ?s ?t] =>
          destruct (PyStr.rfind_split s t) as [[b0 a0]|] end; simpl; eauto. }
    split; [eauto |]. split.
    + rewrite (should_trigger_of_partition _ _ _ _ _ E). eauto.
    + intros Hno.
      rewrite (should_trigger_of_partition _ _ _ _ _
                 (partition_input_missing self x buffer Hx Hne Hno)).
      reflexivity.
Qed.

Lemma trigger_check_errors_witness :
  abbreviation (abbreviation_config "btw") = Some "btw" ∧ "btw" ≠ EmptyString ∧
  _should_trigger_abbreviation (abbreviation_config "btw") "no match here " = Ok false.
Proof.
  split; [reflexivity |]. split; [discriminate |].
  destruct (trigger_check_errors (abbreviation_config "btw") "no match here ")
    as (_ & _ & H).
  destruct (H "btw" eq_refl ltac:(discriminate)) as (_ & _ & Hno).
  apply Hno. intros (b & a & Hocc).
  assert (PyStr.rfind_split "btw" "no match here " = None) as E by reflexivity.
  apply (rfind_split_none _ _ E). now exists b, a.
Defined.

(** X2: a partition loses and invents nothing: the buffer is the typed
    text before, the matched text and the typed text after, in this
    order; [before] and [after] are these typed texts (lower-cased under
    [ignoreCase]), and the matched text is empty or reads as the
    abbreviation (up to case under [ignoreCase]). *)
Theorem partition_input_reassembles (self : t) (x buffer b m a : string) :
  abbreviation self = Some x →
  _partition_input self buffer = Ok (b, m, a) →
  ∃ typed_before typed_after,
    buffer = typed_before +:+ m +:+ typed_after ∧
    searched self typed_before = b ∧
    searched self typed_after = a ∧
    (m = EmptyString ∨ searched self m = x).
Proof.
  intros Hx H.
  destruct (partition_input_parts self x buffer b m a Hx H)
    as [Hne [(-> & -> & -> & Hno) | [Hlast Hlen]]].
  - exists EmptyString, buffer. unfold searched.
    destruct (ignoreCase self); simpl; auto.
  - unfold searched in *. destruct (ignoreCase self) eqn:Hic.
    + assert (occurs x (PyStr.lower buffer)) as Hocc
        by (destruct Hlast as [Hat _]; now exists b, a).
      destruct (partition_input_ignoreCase self x buffer Hic Hx Hne Hocc)
        as (b' & m' & a' & tb & ta & E & _ & Hbuf & Hb & Hm & Ha).
      rewrite E in H. injection H as <- <- <-.
      exists tb, ta. auto.
    + unfold _partition_input in H. rewrite Hic, Hx in H.
      unfold PyStr.rpartition in H. destruct x as [|c x]; [congruence |].
      destruct (PyStr.rfind_split (String c x) buffer) as [[b0 a0]|] eqn:E;
        simpl in H; injection H as Eb Em Ea; subst b m a.
      * exists b0, a0. apply rfind_split_sound in E. auto.
      * simpl in Hlen. discriminate Hlen.
Qed.

Lemma partition_input_reassembles_witness :
  ∃ typed_before typed_after,
    "Say BtW now" = typed_before +:+ "BtW" +:+ typed_after ∧
    PyStr.lower typed_before = "say " ∧ PyStr.lower typed_after = " now".
Proof.
  destruct (partition_input_reassembles
              (with_flags (abbreviation_config "btw") true false false)
              "btw" "Say BtW now" "say " "BtW" " now" eq_refl eq_refl)
    as (tb & ta & Hbuf & Hb & Ha & _).
  exists tb, ta. auto.
Defined.

End PartitionShape.

(** ** Accounting along the tree *)

Section Accounting.

Lemma should_trigger_partition (self : AbstractAbbreviation.t) (buffer : string)
    (fires : bool) :
  AbstractAbbreviation._should_trigger_abbreviation self buffer = Ok fires →
  ∃ b m a, AbstractAbbreviation._partition_input self buffer = Ok (b, m, a) ∧
           fires = (0 <? String.length m)%nat && boundary_check self b a.
Proof.
  intros H.
  destruct (AbstractAbbreviation._partition_input self buffer) as [[[b m] a]|e] eqn:E.
  - rewrite (should_trigger_of_partition _ _ _ _ _ E) in H. injection H as <-.
    now exists b, m, a.
  - unfold AbstractAbbreviation._should_trigger_abbreviation in H.
    rewrite E in H. discriminate H.
Qed.

(** After a trigger, [after] is the one boundary character, or nothing
    when immediate. *)
Lemma fired_after_length (self : AbstractAbbreviation.t) (buffer b m a : string) :
  AbstractAbbreviation._should_trigger_abbreviation self buffer = Ok true →
  AbstractAbbreviation._partition_input self buffer = Ok (b, m, a) →
  (0 < String.length m)%nat ∧
  PyStr.len a = if AbstractAbbreviation.immediate self then 0 else 1.
Proof.
  intros Hfire Hpart.
  rewrite (should_trigger_of_partition _ _ _ _ _ Hpart) in Hfire.
  injection Hfire as Hfire. apply andb_true_iff in Hfire as [Hm Hb].
  split; [now apply Nat.ltb_lt |].
  unfold boundary_check in Hb. apply andb_true_iff in Hb as [Hb _].
  unfold PyStr.len. destruct (AbstractAbbreviation.immediate self).
  - apply Nat.eqb_eq in Hb. now rewrite Hb.
  - apply andb_true_iff in Hb as [Hb _]. apply Nat.eqb_eq in Hb. now rewrite Hb.
Qed.

(** X3: for every folder and buffer, [get_backspace_count] and
    [calculate_input] give the same answer (or raise the same error): the
    text to erase for the nearest triggering ancestor is what was typed to
    trigger it. *)
Theorem backspace_count_is_input (depth : nat) (h : gmap ref obj) (self : ref)
    (buffer : string) :
  Folder.get_backspace_count depth h self buffer
    = Folder.calculate_input depth h self buffer.
Proof.
  revert self. induction depth as [|d IH]; intros self; [reflexivity |].
  simpl. destruct (Folder.get h self) as [f|e]; [| reflexivity]. simpl.
  destruct (mode_in ABBREVIATION (FolderObj.modes f)
            && AbstractAbbreviation.backspace (FolderObj.abbr f)).
  - destruct (AbstractAbbreviation._should_trigger_abbreviation (FolderObj.abbr f) buffer)
      as [[|]|e] eqn:Hfire; simpl; [| | reflexivity].
    + destruct (should_trigger_partition _ _ _ Hfire) as (b & m & a & Hpart & _).
      rewrite Hpart. simpl.
      destruct (fired_after_length _ _ _ _ _ Hfire Hpart) as [_ Hlen].
      destruct (len_abbreviation _) as [n|e]; simpl; [| reflexivity].
      rewrite Hlen.
      destruct (AbstractAbbreviation.immediate (FolderObj.abbr f)); f_equal; lia.
    + destruct (FolderObj.parent f); [apply IH | reflexivity].
  - destruct (FolderObj.parent f); [apply IH | reflexivity].
Qed.

(** The sample folders: typing "btw " in the inner folder takes four
    keystrokes and four backspaces. *)
Example backspace_count_sample :
  Folder.get_backspace_count 3 (sample_folders true) 1%nat "btw " = Ok 4 ∧
  Folder.calculate_input 3 (sample_folders true) 1%nat "btw " = Ok 4.
Proof. split; reflexivity. Qed.

(** X4: for a phrase whose abbreviation trigger succeeds,
    [calculate_input] is the length of [get_trigger_chars]: the typed
    abbreviation together with the character that confirmed it. *)
Theorem calculate_input_is_trigger_chars (depth : nat) (h : gmap ref obj) (self : ref)
    (p : PhraseObj.t) (buffer : string) :
  h !! self = Some (OPhrase p) →
  trigger_succeeds (PhraseObj.modes p) (PhraseObj.abbr p) buffer →
  ∃ chars,
    Phrase.get_trigger_chars p buffer = Ok chars ∧
    Phrase.calculate_input depth h self buffer = Ok (PyStr.len chars).
Proof.
  intros Hs [Hmode Hfire].
  destruct (should_trigger_partition _ _ _ Hfire) as (b & m & a & Hpart & _).
  destruct (fired_after_length _ _ _ _ _ Hfire Hpart) as [Hm Hlen].
  destruct (should_trigger_Ok_abbreviation _ _ _ Hfire) as (x & Hx & _).
  destruct (partition_input_parts _ _ _ _ _ _ Hx Hpart)
    as [_ [(_ & -> & _) | [_ Hmx]]]; [simpl in Hm; lia |].
  exists (m +:+ a). split.
  - unfold Phrase.get_trigger_chars. now rewrite Hpart.
  - unfold Phrase.calculate_input, Phrase.get. rewrite Hs. simpl.
    rewrite Hmode, Hfire. simpl. rewrite Hx. simpl.
    unfold PyStr.len in *. rewrite length_append, Hmx.
    destruct (AbstractAbbreviation.immediate (PhraseObj.abbr p)); f_equal; lia.
Qed.

Lemma calculate_input_is_trigger_chars_witness :
  ∃ chars,
    Phrase.get_trigger_chars
      (PhraseObj.mk (abbreviation_config "btw") no_hotkey "by the way" "by the way"
         [ABBREVIATION] 0 false false false (Some 1%nat) false (Some "kb"))
      "hello btw " = Ok chars ∧
    Phrase.calculate_input 5 (sample_tree (abbreviation_config "btw") false false)
      2%nat "hello btw " = Ok (PyStr.len chars).
Proof.
  apply (calculate_input_is_trigger_chars 5
           (sample_tree (abbreviation_config "btw") false false) 2%nat
           (PhraseObj.mk (abbreviation_config "btw") no_hotkey "by the way"
              "by the way" [ABBREVIATION] 0 false false false (Some 1%nat) false
              (Some "kb"))
           "hello btw ");
    [reflexivity | split; reflexivity].
Defined.

(** X5: [increment_usage_count] returns exactly when following [parent]
    from the folder reaches a root within the recursion depth; a parent
    that is no folder, a cycle or a chain that is too long make it raise. *)
Theorem increment_usage_count_returns (depth : nat) (h : gmap ref obj) (self : ref) :
  (∃ h', Folder.increment_usage_count depth h self = Ok h') ↔
  (∃ chain, ancestors h (Some self) chain ∧ (List.length chain ≤ depth)%nat).
Proof.
  split.
  - revert h self. induction depth as [|d IH]; intros h self [h' H]; [discriminate |].
    simpl in H. apply bind_Ok in H as (f & Hget & H).
    unfold Folder.get in Hget.
    destruct (h !! self) as [[f0| |]|] eqn:Hr; try discriminate.
    injection Hget as ->.
    change (OFolder (FolderObj.set_usageCount f (FolderObj.usageCount f + 1)))
      with (bump (OFolder f)) in H.
    assert (folder_parent h self = Some (FolderObj.parent f)) as Hp
      by (unfold folder_parent; now rewrite Hr).
    destruct (FolderObj.parent f) as [up|].
    + destruct (IH _ _ (ex_intro _ h' H)) as (chain & Hanc & Hlen).
      apply (ancestors_bump _ _ _ _ _ Hr) in Hanc.
      exists (self :: chain). split; [now apply ancestors_step with (Some up) |].
      simpl. lia.
    + exists [self]. split; [| simpl; lia].
      apply ancestors_step with None; [exact Hp | constructor].
  - intros (chain & Hanc & Hlen). now apply increment_usage_count_total with chain.
Qed.

(** Two folders that name each other as parent: no depth suffices. *)
Example increment_usage_count_cycle (depth : nat) :
  ∀ h',
    Folder.increment_usage_count depth
      (<[0%nat := folder "a" (abbreviation_config "a") [] (Some 1%nat)]>
         (<[1%nat := folder "b" (abbreviation_config "b") [] (Some 0%nat)]> ∅))
      0%nat ≠ Ok h'.
Proof.
  intros h' H.
  destruct (proj1 (increment_usage_count_returns _ _ _) (ex_intro _ h' H))
    as (chain & Hanc & _).
  apply ancestors_NoDup in Hanc as Hnd.
  inversion Hanc as [|r up c1 Hp H1]; subst.
  injection Hp as <-.
  inversion H1 as [|r up c2 Hp' H2]; subst.
  injection Hp' as <-.
  inversion H2; subst.
  apply NoDup_cons in Hnd as [Hnin _]. apply Hnin.
  apply elem_of_cons. right. apply elem_of_cons. now left.
Qed.

End Accounting.

(** ** Builds outside the trigger path *)

Section MenuBuild.

(** A store that differs by usage counts answers the accounting
    questions alike. *)
Lemma get_backspace_count_bumped (touched : list ref) (h h' : gmap ref obj)
    (depth : nat) (self : ref) (buffer : string) :
  bumped touched h h' →
  Folder.get_backspace_count depth h' self buffer
    = Folder.get_backspace_count depth h self buffer.
Proof.
  intros Hb. revert self. induction depth as [|d IH]; intros self; [reflexivity |].
  simpl. unfold Folder.get. rewrite (Hb self).
  destruct (h !! self) as [[f|p|s]|] eqn:Hs;
    destruct (bool_decide (self ∈ touched)); simpl; try reflexivity;
    (destruct (mode_in ABBREVIATION (FolderObj.modes f)
               && AbstractAbbreviation.backspace (FolderObj.abbr f));
     [destruct (AbstractAbbreviation._should_trigger_abbreviation _ _) as [[|]|e];
      simpl; try reflexivity |];
     destruct (FolderObj.parent f); auto).
Qed.

Lemma get_backspace_count_nonneg (depth : nat) (h : gmap ref obj) (self : ref)
    (buffer : string) (n : Z) :
  Folder.get_backspace_count depth h self buffer = Ok n → 0 <= n.
Proof.
  revert self. induction depth as [|d IH]; intros self H; [discriminate |].
  simpl in H. apply bind_Ok in H as (f & _ & H).
  assert (match FolderObj.parent f with
          | Some p => Folder.get_backspace_count d h p buffer
          | None => Ok 0
          end = Ok n → 0 <= n) as Hrest.
  { destruct (FolderObj.parent f); [apply IH | intros [= <-]; lia]. }
  destruct (mode_in ABBREVIATION (FolderObj.modes f)
            && AbstractAbbreviation.backspace (FolderObj.abbr f)); [| auto].
  apply bind_Ok in H as ([|] & _ & H); [| auto].
  apply bind_Ok in H as ([[b m] a] & _ & H).
  apply bind_Ok in H as (k & Hk & H). injection H as <-.
  unfold len_abbreviation in Hk.
  destruct (AbstractAbbreviation.abbreviation (FolderObj.abbr f)); [| discriminate].
  injection Hk as <-. unfold PyStr.len. lia.
Qed.

(** The two ways a [build_phrase] that returns has gone: through the
    phrase's own trigger, or through the ancestors' backspace count. *)
Lemma build_phrase_cases (depth : nat) (h h' : gmap ref obj) (self : ref)
    (buffer : string) (e : Expansion.t) :
  Phrase.build_phrase depth h self buffer = Ok (h', e) →
  ∃ p up,
    h !! self = Some (OPhrase p) ∧ PhraseObj.parent p = Some up ∧
    Folder.increment_usage_count depth (<[self := bump (OPhrase p)]> h) up = Ok h' ∧
    ((trigger_succeeds (PhraseObj.modes p) (PhraseObj.abbr p) buffer ∧
      ∃ b m a x,
        AbstractAbbreviation._partition_input (PhraseObj.abbr p) buffer = Ok (b, m, a) ∧
        AbstractAbbreviation.abbreviation (PhraseObj.abbr p) = Some x ∧
        Expansion.lefts e = 0 ∧
        Expansion.backspaces e
          = (if AbstractAbbreviation.backspace (PhraseObj.abbr p)
             then PyStr.len x + PyStr.len a else PyStr.len a))
     ∨
     ((mode_in ABBREVIATION (PhraseObj.modes p) = false ∨
       AbstractAbbreviation._should_trigger_abbreviation (PhraseObj.abbr p) buffer
         = Ok false) ∧
      ∃ n, Folder.get_backspace_count depth h' up buffer = Ok n ∧
           e = Expansion.mk (PhraseObj.phrase p) 0 n)).
Proof.
  intros H. unfold Phrase.build_phrase, Phrase.get in H.
  destruct (h !! self) as [[f|p|s]|] eqn:Hs; try discriminate. simpl in H.
  destruct (PhraseObj.parent p) as [up|] eqn:Hup; [| discriminate]. simpl in H.
  apply bind_Ok in H as (h1 & Hinc & H).
  exists p, up. split; [reflexivity |]. split; [exact Hup |].
  destruct (mode_in ABBREVIATION (PhraseObj.modes p)) eqn:Hmode.
  - destruct (AbstractAbbreviation._should_trigger_abbreviation (PhraseObj.abbr p) buffer)
      as [[|]|err] eqn:Hfire; simpl in H; [| | discriminate].
    + destruct (should_trigger_partition _ _ _ Hfire) as (b & m & a & Hpart & _).
      destruct (should_trigger_Ok_abbreviation _ _ _ Hfire) as (x & Hx & _).
      rewrite Hpart in H. simpl in H. rewrite Hx in H.
      assert (h1 = h' ∧ Expansion.lefts e = 0 ∧
              Expansion.backspaces e
              = (if AbstractAbbreviation.backspace (PhraseObj.abbr p)
                 then PyStr.len x + PyStr.len a else PyStr.len a)) as (-> & Hl & Hbs).
      { assert (∀ t e0, Expansion.lefts (Phrase.match_case t e0) = Expansion.lefts e0)
          as Hml.
        { intros t e0. unfold Phrase.match_case.
          destruct (PyStr.istitle t); [reflexivity |].
          destruct (PyStr.isupper t); [reflexivity |].
          now destruct (PyStr.islower t). }
        destruct (AbstractAbbreviation.backspace (PhraseObj.abbr p)),
          (PhraseObj.omitTrigger p), (PhraseObj.matchCase p);
          simpl in H; injection H as <- <-;
          rewrite ?match_case_backspaces, ?Hml; auto. }
      split; [exact Hinc |]. left. split; [now split |].
      exists b, m, a, x. auto.
    + apply bind_Ok in H as (e' & He & H). injection H as <- <-.
      apply bind_Ok in He as (n & Hn & He). injection He as <-.
      split; [exact Hinc |]. right. split; [now right |]. now exists n.
  - simpl in H. apply bind_Ok in H as (e' & He & H). injection H as <- <-.
    apply bind_Ok in He as (n & Hn & He). injection He as <-.
    split; [exact Hinc |]. right. split; [now left |]. now exists n.
Qed.

(** X6: a phrase built without a trigger of its own (abbreviation mode
    off, or the buffer not triggering it: the phrase was chosen from a
    menu) keeps its text as it is, whatever [omitTrigger] and [matchCase]
    say, and takes its backspace count from the nearest triggering
    ancestor folder. *)
Theorem build_phrase_from_menu (depth : nat) (h h' : gmap ref obj) (self up : ref)
    (p : PhraseObj.t) (buffer : string) (e : Expansion.t) :
  h !! self = Some (OPhrase p) → PhraseObj.parent p = Some up →
  mode_in ABBREVIATION (PhraseObj.modes p) = false ∨
  AbstractAbbreviation._should_trigger_abbreviation (PhraseObj.abbr p) buffer
    = Ok false →
  Phrase.build_phrase depth h self buffer = Ok (h', e) →
  Expansion.string e = PhraseObj.phrase p ∧
  Expansion.lefts e = 0 ∧
  Folder.get_backspace_count depth h up buffer = Ok (Expansion.backspaces e).
Proof.
  intros Hs Hup Hno H.
  destruct (build_phrase_cases _ _ _ _ _ _ H)
    as (p' & up' & Hs' & Hup' & Hinc & [[[Hmode Hfire] _] | [_ (n & Hn & ->)]]).
  - rewrite Hs in Hs'. injection Hs' as <-.
    destruct Hno as [Hno | Hno]; congruence.
  - rewrite Hs in Hs'. injection Hs' as <-.
    rewrite Hup in Hup'. injection Hup' as <-.
    destruct (increment_usage_count_spec _ _ _ _ Hinc) as (chain & Hanc & Hb).
    assert (self ∉ chain) as Hnin.
    { intros Hin. apply (ancestors_bump _ _ _ _ _ Hs) in Hanc.
      destruct (ancestors_folders _ _ _ _ Hanc Hin) as [f Hf]. congruence. }
    pose proof (bumped_cons _ _ _ _ _ Hs Hnin Hb) as Hall.
    rewrite (get_backspace_count_bumped _ _ _ _ _ _ Hall) in Hn. auto.
Qed.

Lemma build_phrase_from_menu_witness :
  ∃ h' e,
    Phrase.build_phrase 5 (sample_tree (abbreviation_config "btw") false true) 2%nat
      "wk " = Ok (h', e) ∧
    Expansion.string e = "by the way" ∧ Expansion.lefts e = 0 ∧
    Folder.get_backspace_count 5 (sample_tree (abbreviation_config "btw") false true)
      1%nat "wk " = Ok (Expansion.backspaces e).
Proof.
  assert (∃ h' e,
            Phrase.build_phrase 5 (sample_tree (abbreviation_config "btw") false true)
              2%nat "wk " = Ok (h', e)) as (h' & e & E).
  { eexists. eexists. vm_compute. reflexivity. }
  exists h', e. split; [exact E |].
  apply (build_phrase_from_menu 5
           (sample_tree (abbreviation_config "btw") false true) h' 2%nat 1%nat
           (PhraseObj.mk (abbreviation_config "btw") no_hotkey "by the way"
              "by the way" [ABBREVIATION] 0 false false true (Some 1%nat) false
              (Some "kb"))
           "wk " e);
    [reflexivity | reflexivity | right; reflexivity | exact E].
Defined.

(** X7: every expansion [build_phrase] returns has no left-arrow presses
    (cursor markers are not interpreted there) and a backspace count that
    is not negative. *)
Theorem build_phrase_lefts_and_backspaces (depth : nat) (h h' : gmap ref obj)
    (self : ref) (buffer : string) (e : Expansion.t) :
  Phrase.build_phrase depth h self buffer = Ok (h', e) →
  Expansion.lefts e = 0 ∧ 0 <= Expansion.backspaces e.
Proof.
  intros H.
  destruct (build_phrase_cases _ _ _ _ _ _ H)
    as (p & up & _ & _ & _ & [[_ (b & m & a & x & _ & _ & Hl & ->)]
                              | [_ (n & Hn & ->)]]).
  - split; [exact Hl |]. unfold PyStr.len.
    destruct (AbstractAbbreviation.backspace (PhraseObj.abbr p)); lia.
  - split; [reflexivity |]. simpl. now apply get_backspace_count_nonneg in Hn.
Qed.

Lemma build_phrase_lefts_and_backspaces_witness :
  ∃ h' e,
    Phrase.build_phrase 5 (sample_tree (abbreviation_config "btw") false false) 2%nat
      "hello btw " = Ok (h', e) ∧
    Expansion.lefts e = 0 ∧ 0 <= Expansion.backspaces e.
Proof.
  assert (∃ h' e,
            Phrase.build_phrase 5 (sample_tree (abbreviation_config "btw") false false)
              2%nat "hello btw " = Ok (h', e)) as (h' & e & E).
  { eexists. eexists. vm_compute. reflexivity. }
  exists h', e. split; [exact E |].
  exact (build_phrase_lefts_and_backspaces _ _ _ _ _ _ E).
Defined.

End MenuBuild.

(** ** Hotkeys: the order of modifiers *)

Section HotkeyOrder.

Import AbstractHotkey.

Lemma sort_permutation_eq (l k : list string) : l ≡ₚ k ↔ sort l = sort k.
Proof.
  unfold sort. split.
  - intros Hp. apply (Sorted_unique String.le); try apply (Sorted_merge_sort String.le).
    now rewrite !merge_sort_Permutation.
  - intros E. rewrite <- (merge_sort_Permutation String.le l), E.
    apply merge_sort_Permutation.
Qed.

(** X8: a hotkey set with [set_hotkey] is matched by [check_hotkey] on
    the sorted list of active modifiers exactly when the window filter
    passes, the key is the configured one and the active modifiers are the
    configured ones in any order (the same modifiers, each as often). *)
Theorem check_hotkey_any_order (self : t) (mods active : list string)
    (key windowTitle : string) :
  check_hotkey (set_hotkey self mods (Some key)) (sort active) key windowTitle = true ↔
    AbstractWindowFilter._should_trigger_window_title (filter self) windowTitle = true ∧
    mods ≡ₚ active.
Proof.
  rewrite check_hotkey_true. simpl. rewrite sort_permutation_eq. tauto.
Qed.

End HotkeyOrder.

(** ** The split into sections *)

Section Sections.

Lemma span_plain_joined (s : string) :
  (KEY_SPLIT_RE.span_plain s).1 +:+ (KEY_SPLIT_RE.span_plain s).2 = s.
Proof.
  induction s as [|c s IH]; simpl; [reflexivity |].
  destruct (KEY_SPLIT_RE.is_angle c); simpl; [reflexivity |].
  destruct (KEY_SPLIT_RE.span_plain s) as [body rest]. simpl in *. now rewrite IH.
Qed.

Lemma match_here_joined (s tok rest : string) :
  KEY_SPLIT_RE.match_here s = Some (tok, rest) → s = tok +:+ rest.
Proof.
  unfold KEY_SPLIT_RE.match_here. destruct s as [|c r]; [discriminate |].
  destruct (Ascii.eqb c KEY_SPLIT_RE.lt_c); [| discriminate].
  pose proof (span_plain_joined r) as Hj.
  destruct (KEY_SPLIT_RE.span_plain r) as [[|b body] [|d rest0]]; try discriminate.
  simpl in Hj.
  destruct (Ascii.eqb d KEY_SPLIT_RE.gt_c); [| discriminate].
  destruct rest0 as [|e rest1].
  - intros [= <- <-]. simpl. rewrite <- Hj. f_equal. f_equal.
    now rewrite !append_assoc.
  - destruct (Ascii.eqb e KEY_SPLIT_RE.plus_c); intros [= <- <-]; simpl;
      rewrite <- Hj; f_equal; f_equal; now rewrite !append_assoc.
Qed.

Lemma match_here_token (s tok rest : string) :
  KEY_SPLIT_RE.match_here s = Some (tok, rest) → (3 ≤ String.length tok)%nat.
Proof.
  unfold KEY_SPLIT_RE.match_here. destruct s as [|c r]; [discriminate |].
  destruct (Ascii.eqb c KEY_SPLIT_RE.lt_c); [| discriminate].
  destruct (KEY_SPLIT_RE.span_plain r) as [[|b body] [|d rest0]]; try discriminate.
  destruct (Ascii.eqb d KEY_SPLIT_RE.gt_c); [| discriminate].
  destruct rest0 as [|e rest1].
  - intros [= <- <-]. simpl. rewrite length_append. simpl. lia.
  - destruct (Ascii.eqb e KEY_SPLIT_RE.plus_c); intros [= <- <-]; simpl;
      rewrite length_append; simpl; lia.
Qed.

Lemma split_from_joined (fuel : nat) (lit s : string) :
  joined (KEY_SPLIT_RE.split_from fuel lit s) = lit +:+ s.
Proof.
  revert lit s. induction fuel as [|fuel IH]; intros lit s; simpl.
  - now rewrite append_empty_r.
  - destruct s as [|c r]; [simpl; now rewrite !append_empty_r |].
    destruct (KEY_SPLIT_RE.match_here (String c r)) as [[tok rest]|] eqn:E.
    + simpl. rewrite IH. simpl. now rewrite (match_here_joined _ _ _ E).
    + rewrite IH. rewrite append_assoc. reflexivity.
Qed.

(** X9: the sections [KEY_SPLIT_RE.split] cuts a string into give the
    string back when put together: no character is dropped, added or
    moved. *)
Theorem key_split_joined (s : string) : joined (KEY_SPLIT_RE.split s) = s.
Proof. unfold KEY_SPLIT_RE.split. apply split_from_joined. Qed.

Lemma match_here_plain (s : string) :
  no_opening_angle s = true → KEY_SPLIT_RE.match_here s = None.
Proof.
  destruct s as [|c r]; [reflexivity |]. simpl.
  intros [Hc _]%andb_true_iff. apply negb_true_iff in Hc.
  unfold KEY_SPLIT_RE.match_here. now rewrite Hc.
Qed.

Lemma split_from_plain (fuel : nat) (lit s : string) :
  no_opening_angle s = true → KEY_SPLIT_RE.split_from fuel lit s = [lit +:+ s].
Proof.
  revert lit s. induction fuel as [|fuel IH]; intros lit s Hs; [reflexivity |].
  destruct s as [|c r]; [simpl; now rewrite append_empty_r |].
  cbn [KEY_SPLIT_RE.split_from]. rewrite (match_here_plain _ Hs).
  simpl in Hs. apply andb_true_iff in Hs as [_ Hr].
  rewrite (IH _ _ Hr). now rewrite append_assoc.
Qed.

(** Text without ["<"] is a single section. *)
Lemma key_split_plain (s : string) :
  no_opening_angle s = true → KEY_SPLIT_RE.split s = [s].
Proof. intros Hs. unfold KEY_SPLIT_RE.split. now rewrite split_from_plain. Qed.

End Sections.

(** ** [send_string]: what is always kept *)

Section SendStructure.

Import IoMediator.

Lemma sends_allowed (released : list string) (sent : list call) :
  forallb is_send sent = true → Forall (send_or_repress released) sent.
Proof.
  induction sent as [|c sent IH]; simpl; [constructor |].
  intros [Hc Hs]%andb_true_iff. constructor; [now left | auto].
Qed.

Lemma presses_allowed (released l : list string) :
  (∀ m, m ∈ l → m ∈ released) →
  Forall (send_or_repress released) (List.map press_key l).
Proof.
  induction l as [|m l IH]; intros H; simpl; constructor.
  - right. exists m. split; [reflexivity |]. apply H. apply elem_of_cons. now left.
  - apply IH. intros x Hx. apply H. apply elem_of_cons. now right.
Qed.

Lemma send_string_step_body (self : t) (mods : list string) (section : string) :
  ∃ body,
    releasedModifiers (send_string_step (self, mods) section).1 = releasedModifiers self ∧
    interface (send_string_step (self, mods) section).1 = (interface self ++ body)%list ∧
    Forall (send_or_repress (releasedModifiers self)) body.
Proof.
  unfold send_string_step.
  assert (∃ sent self' mods',
            (if (0 <? String.length section)%nat
             then send_section self mods section else (self, mods)) = (self', mods') ∧
            forallb is_send sent = true ∧
            releasedModifiers self' = releasedModifiers self ∧
            interface self' = (interface self ++ sent)%list)
    as (sent & self' & mods' & -> & Hs & Hr & Hi).
  { destruct (0 <? String.length section)%nat.
    - destruct (send_section_spec self mods section) as (sent & Hs & Hr & Hi).
      exists sent. destruct (send_section self mods section) as [self' mods'].
      now exists self', mods'.
    - exists [], self, mods. simpl. now rewrite app_nil_r. }
  cbn [fst]. destruct (reapplyModifiers_spec self') as [E1 E2].
  exists (sent ++ List.map press_key (releasedModifiers self))%list.
  rewrite E1, E2, Hr, Hi, <- app_assoc. split; [reflexivity |].
  split; [reflexivity |].
  apply Forall_app. split; [now apply sends_allowed | now apply presses_allowed].
Qed.

Lemma send_string_loop_body (sections : list string) (self : t) (mods : list string) :
  ∃ body,
    interface (fold_left send_string_step sections (self, mods)).1
      = (interface self ++ body)%list ∧
    Forall (send_or_repress (releasedModifiers self)) body.
Proof.
  revert self mods. induction sections as [|section sections IH]; intros self mods.
  - exists []. simpl. rewrite app_nil_r. auto.
  - cbn [fold_left].
    destruct (send_string_step_body self mods section) as (b1 & Hr & Hi & Hf).
    destruct (send_string_step (self, mods) section) as [self' mods'].
    cbn [fst] in *. destruct (IH self' mods') as (b2 & Hi2 & Hf2).
    exists (b1 ++ b2)%list. rewrite Hi2, Hi, <- app_assoc. split; [reflexivity |].
    apply Forall_app. split; [exact Hf |]. now rewrite <- Hr.
Qed.

(** The calls of [send_string] for content that is not empty. *)
Lemma send_string_calls (self : t) (string : String.string) :
  string ≠ EmptyString →
  ∃ body,
    interface (send_string self string)
      = (interface self
         ++ lock_acquire
            :: List.map release_key (releasedModifiers (__clearModifiers self))
         ++ body ++ [lock_release])%list ∧
    Forall (send_or_repress (releasedModifiers (__clearModifiers self))) body.
Proof.
  intros Hne. unfold send_string. destruct string as [|c s]; [congruence |].
  cbn [String.length Nat.eqb].
  set (sections := KEY_SPLIT_RE.split (String c s)).
  destruct (send_string_loop_body sections (__clearModifiers (acquire_lock self)) [])
    as (body & Hi & Hf).
  destruct (fold_left send_string_step sections (__clearModifiers (acquire_lock self), []))
    as [self' mods'].
  cbn [fst] in Hi. exists body.
  assert (releasedModifiers (__clearModifiers (acquire_lock self))
          = releasedModifiers (__clearModifiers self)) as Hrel.
  { destruct (clearModifiers_spec (acquire_lock self)) as [-> _].
    now destruct (clearModifiers_spec self) as [-> _]. }
  rewrite Hrel in Hf. split; [| exact Hf].
  unfold release_lock, invoke. cbn [interface]. rewrite Hi.
  destruct (clearModifiers_spec (acquire_lock self)) as [Hr' ->].
  rewrite Hr' in Hrel. rewrite Hrel. simpl.
  rewrite <- !app_assoc. reflexivity.
Qed.

(** X10: [send_string] with content that is not empty takes the lock
    first and gives it back last; right after taking it, it releases
    each held modifier other than caps lock and num lock once; all calls
    after that and before the unlock send content or press one of the
    released modifiers again.  No key is released once sending has
    begun, and no modifier is pressed that was not held. *)
Theorem send_string_bracket (self : t) (string : String.string) :
  string ≠ EmptyString →
  ∃ released body,
    interface (send_string self string)
      = (interface self ++ lock_acquire :: List.map release_key released
         ++ body ++ [lock_release])%list ∧
    NoDup released ∧
    (∀ m, m ∈ released ↔ modifiers self !! m = Some true ∧ is_toggle m = false) ∧
    Forall (send_or_repress released) body.
Proof.
  intros Hne. destruct (send_string_calls self string Hne) as (body & Hi & Hf).
  exists (releasedModifiers (__clearModifiers self)), body.
  split; [exact Hi |]. split; [apply released_NoDup |].
  split; [apply released_iff | exact Hf].
Qed.

Lemma send_string_bracket_witness :
  ∃ released body,
    interface (send_string ctrl_held "a<tab>b")
      = (lock_acquire :: List.map release_key released ++ body ++ [lock_release])%list ∧
    NoDup released ∧ Forall (send_or_repress released) body.
Proof.
  destruct (send_string_bracket ctrl_held "a<tab>b" ltac:(discriminate))
    as (released & body & Hi & Hnd & _ & Hf).
  exists released, body. auto.
Defined.

End SendStructure.

(** ** [send_string]: toggles and plain text *)

Section SendPlain.

Import IoMediator.

Lemma allowed_no_press (released : list string) (body : list call) (m : string) :
  m ∉ released → Forall (send_or_repress released) body → presses m body = 0%nat.
Proof.
  intros Hm. unfold presses. induction 1 as [|c body Hc _ IH]; [reflexivity |].
  cbn [count_occ]. destruct (call_eq_dec c (press_key m)) as [-> | _]; [| exact IH].
  destruct Hc as [Hs | (m' & [= ->] & Hin)]; [discriminate | contradiction].
Qed.

Lemma allowed_no_release (released : list string) (body : list call) (m : string) :
  Forall (send_or_repress released) body → releases m body = 0%nat.
Proof.
  unfold releases. induction 1 as [|c body Hc _ IH]; [reflexivity |].
  cbn [count_occ]. destruct (call_eq_dec c (release_key m)) as [-> | _]; [| exact IH].
  destruct Hc as [Hs | (m' & Hm' & _)]; discriminate.
Qed.

Lemma releases_map_release (m : string) (l : list string) :
  m ∉ l → releases m (List.map release_key l) = 0%nat.
Proof.
  unfold releases. induction l as [|x l IH]; intros Hm; cbn [List.map count_occ];
    [reflexivity |].
  apply not_elem_of_cons in Hm as [Hne Hm].
  destruct (call_eq_dec (release_key x) (release_key m)) as [[= ->] | _];
    [congruence | now apply IH].
Qed.

Lemma releases_app (m : string) (l k : list call) :
  releases m (l ++ k) = (releases m l + releases m k)%nat.
Proof. apply count_occ_app. Qed.

(** X11: [send_string] never releases and never presses caps lock or num
    lock, nor any modifier that is not held: for such a key the interface
    has received as many presses and releases after the call as before. *)
Theorem send_string_leaves_toggles (self : t) (string m : String.string) :
  is_toggle m = true ∨ modifiers self !! m ≠ Some true →
  presses m (interface (send_string self string)) = presses m (interface self) ∧
  releases m (interface (send_string self string)) = releases m (interface self).
Proof.
  intros Hm. destruct string as [|c s]; [split; reflexivity |].
  destruct (send_string_calls self (String c s) ltac:(discriminate)) as (body & -> & Hf).
  assert (m ∉ releasedModifiers (__clearModifiers self)) as Hnin.
  { rewrite released_iff. intros [Hheld Ht]. destruct Hm; congruence. }
  change (lock_acquire :: ?l) with ([lock_acquire] ++ l)%list.
  rewrite !presses_app, !releases_app, presses_map_release,
    (releases_map_release _ _ Hnin), (allowed_no_press _ _ _ Hnin Hf),
    (allowed_no_release _ _ _ Hf).
  split; [unfold presses | unfold releases]; simpl; lia.
Qed.

Lemma send_string_leaves_toggles_witness :
  presses Key.NUMLOCK (interface (send_string ctrl_held "a<tab>b")) = 0%nat ∧
  releases Key.NUMLOCK (interface (send_string ctrl_held "a<tab>b")) = 0%nat.
Proof.
  apply (send_string_leaves_toggles ctrl_held "a<tab>b" Key.NUMLOCK).
  left. reflexivity.
Defined.

(** X12: text without ["<"] that is no key name goes out in a single
    call, with every held modifier (toggles apart) released before it and
    pressed again once after it, all under the lock. *)
Theorem send_string_plain (self : t) (string : String.string) :
  string ≠ EmptyString → no_opening_angle string = true →
  Key.is_key string = false →
  interface (send_string self string)
    = (interface self
       ++ lock_acquire
          :: List.map release_key (releasedModifiers (__clearModifiers self))
       ++ send_string_call string
          :: List.map press_key (releasedModifiers (__clearModifiers self))
       ++ [lock_release])%list.
Proof.
  intros Hne Hplain Hkey. unfold send_string.
  destruct string as [|c s]; [congruence |]. cbn [String.length Nat.eqb].
  rewrite (key_split_plain _ Hplain). cbn [fold_left].
  unfold send_string_step. cbn [String.length Nat.ltb Nat.leb].
  assert (send_section (__clearModifiers (acquire_lock self)) [] (String c s)
          = (invoke (__clearModifiers (acquire_lock self))
                    (send_string_call (String c s)), [])) as ->.
  { unfold send_section. rewrite Hkey.
    destruct (Key.is_key (PyStr.init (String c s))
              && bool_decide (PyStr.last (String c s) = Some KEY_SPLIT_RE.plus_c)
              && bool_decide (PyStr.init (String c s) ∈ MODIFIERS)) eqn:E;
      [| reflexivity].
    exfalso. apply andb_true_iff in E as [_ E]. apply bool_decide_eq_true in E.
    assert (no_opening_angle (PyStr.init (String c s)) = true) as Hinit.
    { clear -Hplain. revert c Hplain. induction s as [|d s IH]; intros c H;
        [reflexivity |].
      simpl in H. apply andb_true_iff in H as [Hc H].
      change (PyStr.init (String c (String d s)))
        with (String c (PyStr.init (String d s))).
      simpl. rewrite Hc. simpl. apply IH. exact H. }
    unfold MODIFIERS in E.
    repeat (apply elem_of_cons in E as [E | E];
            [rewrite E in Hinit; discriminate Hinit |]).
    now apply elem_of_nil in E. }
  destruct (reapplyModifiers_spec
              (invoke (__clearModifiers (acquire_lock self))
                      (send_string_call (String c s)))) as [_ E2].
  unfold release_lock. unfold invoke at 1. cbn [interface]. rewrite E2.
  unfold invoke. cbn [interface releasedModifiers].
  destruct (clearModifiers_spec (acquire_lock self)) as [Hr Hi].
  destruct (clearModifiers_spec self) as [Hr0 _].
  rewrite Hi, Hr, Hr0. simpl. rewrite <- !app_assoc. reflexivity.
Qed.

Lemma send_string_plain_witness :
  interface (send_string ctrl_held "by the way")
    = [ lock_acquire; release_key "<ctrl>"; send_string_call "by the way";
        press_key "<ctrl>"; lock_release ].
Proof.
  rewrite (send_string_plain ctrl_held "by the way");
    [reflexivity | discriminate | reflexivity | reflexivity].
Defined.

End SendPlain.

(** ** [remove_string] *)

Section RemoveString.

Import IoMediator.

Lemma iter_invoke (n : nat) (self : t) (c : call) :
  interface (Nat.iter n (fun (self : t) => invoke self c) self)
    = (interface self ++ replicate n c)%list.
Proof.
  induction n as [|n IH]; simpl; [now rewrite app_nil_r |].
  rewrite IH, <- app_assoc. f_equal.
  clear. induction n as [|n IH]; simpl; [reflexivity | now rewrite IH].
Qed.

Lemma is_key_not_empty (section : string) :
  Key.is_key section = true → (1 ≤ String.length section)%nat.
Proof. destruct section; [discriminate | simpl; lia]. Qed.

Lemma length_joined_cons (section : string) (sections : list string) :
  String.length (joined (section :: sections))
    = (String.length section + String.length (joined sections))%nat.
Proof. simpl. apply length_append. Qed.

Lemma remove_string_count (sections : list string) (start : Z) :
  fold_left
    (fun (backspaces : Z) (section : String.string) =>
       if Key.is_key section then backspaces + 1
       else backspaces + PyStr.len section)
    sections start
  <= start + Z.of_nat (String.length (joined sections)).
Proof.
  revert start. induction sections as [|section sections IH]; intros start.
  - simpl. lia.
  - cbn [fold_left]. rewrite length_joined_cons.
    destruct (Key.is_key section) eqn:K.
    + apply is_key_not_empty in K. specialize (IH (start + 1)). lia.
    + specialize (IH (start + PyStr.len section)). unfold PyStr.len in *. lia.
Qed.

(** X13: [remove_string] sends backspaces and nothing else, and at most
    one fewer than the string has characters (a key token counts once,
    and one backspace is taken as typed by the user already); for the
    empty string it sends nothing.  For text without ["<"] that is no key
    name it sends exactly one fewer than the text is long. *)
Theorem remove_string_backspaces (self : t) (string : String.string) :
  ∃ n,
    interface (remove_string self string)
      = (interface self ++ replicate n (send_key Key.BACKSPACE))%list ∧
    (n ≤ String.length string - 1)%nat ∧
    (no_opening_angle string = true → Key.is_key string = false →
     n = (String.length string - 1)%nat).
Proof.
  unfold remove_string, send_backspace.
  set (b := fold_left _ (KEY_SPLIT_RE.split string) (-1)).
  exists (Z.to_nat b). split; [apply iter_invoke |]. split.
  - pose proof (remove_string_count (KEY_SPLIT_RE.split string) (-1)) as H.
    fold b in H. rewrite key_split_joined in H. lia.
  - intros Hplain Hkey. subst b. rewrite (key_split_plain _ Hplain).
    cbn [fold_left]. rewrite Hkey. unfold PyStr.len. lia.
Qed.

(** Erasing "btw" after the user's own backspace takes two more; a key
    token counts as one character. *)
Example remove_string_samples :
  interface (remove_string initial_mediator "btw")
    = [send_key "<backspace>"; send_key "<backspace>"] ∧
  interface (remove_string initial_mediator "a<tab>")
    = [send_key "<backspace>"] ∧
  interface (remove_string initial_mediator "") = [].
Proof. repeat split. Qed.

End RemoveString.

(** ** The modifier table *)

Section ModifierTable.

Import IoMediator.

Lemma downs_cons_down (m x : string) (evs : list modifier_event) :
  downs m (Down x :: evs)
    = if String.eqb x m then S (downs m evs) else downs m evs.
Proof. unfold downs. simpl. now destruct (String.eqb x m). Qed.

Lemma downs_cons_up (m x : string) (evs : list modifier_event) :
  downs m (Up x :: evs) = downs m evs.
Proof. reflexivity. Qed.

(** What a run of notifications does to the table. *)
Lemma handle_modifier_events_spec (evs : list modifier_event) (self : t) :
  (∀ m, is_toggle m = true → is_Some (modifiers self !! m)) →
  ∃ self',
    handle_modifier_events self evs = Ok self' ∧
    interface self' = interface self ∧
    releasedModifiers self' = releasedModifiers self ∧
    ∀ m, modifiers self' !! m
         = if is_toggle m
           then (fun held => xorb held (Nat.odd (downs m evs))) <$> modifiers self !! m
           else last_state m (modifiers self !! m) evs.
Proof.
  revert self. induction evs as [|ev evs IH]; intros self Htog.
  - exists self. repeat split. intros m. simpl.
    destruct (is_toggle m); [| reflexivity].
    destruct (modifiers self !! m) as [b|]; simpl; [| reflexivity].
    now rewrite xorb_false_r.
  - assert (∃ self1,
              handle_modifier_event self ev = Ok self1 ∧
              interface self1 = interface self ∧
              releasedModifiers self1 = releasedModifiers self ∧
              (∀ m, is_toggle m = true → is_Some (modifiers self1 !! m)) ∧
              ∀ m, modifiers self1 !! m
                   = match ev with
                     | Down x =>
                         if String.eqb x m
                         then (if is_toggle m then negb <$> modifiers self !! m
                               else Some true)
                         else modifiers self !! m
                     | Up x =>
                         if String.eqb x m && negb (is_toggle m) then Some false
                         else modifiers self !! m
                     end)
      as (self1 & E1 & Hi & Hr & Htog1 & Hm).
    { destruct ev as [x | x]; simpl; unfold handle_modifier_down, handle_modifier_up.
      - destruct (is_toggle x) eqn:Tx.
        + destruct (Htog x Tx) as [b Hb].
          assert ((modifiers self !! x : option bool) = Some b) as -> by exact Hb.
          exists (mk (<[x := negb b]> (modifiers self)) (releasedModifiers self)
                     (interface self)).
          split; [now destruct b |]. split; [reflexivity |]. split; [reflexivity |].
          split.
          * intros m Tm. simpl. destruct (decide (x = m)) as [-> | Hne].
            -- rewrite lookup_insert_eq. eauto.
            -- rewrite lookup_insert_ne by exact Hne. auto.
          * intros m. simpl. destruct (String.eqb_spec x m) as [-> | Hne].
            -- rewrite lookup_insert_eq, Tx, Hb. reflexivity.
            -- now rewrite lookup_insert_ne.
        + eexists. split; [reflexivity |]. split; [reflexivity |].
          split; [reflexivity |]. split.
          * intros m Tm. simpl. rewrite lookup_insert_ne by congruence. auto.
          * intros m. simpl. destruct (String.eqb_spec x m) as [-> | Hne].
            -- now rewrite lookup_insert_eq, Tx.
            -- now rewrite lookup_insert_ne.
      - destruct (is_toggle x) eqn:Tx; simpl.
        + exists self. repeat split; [exact Htog |].
          intros m. destruct (String.eqb_spec x m) as [-> | Hne]; [| reflexivity].
          now rewrite Tx.
        + eexists. split; [reflexivity |]. split; [reflexivity |].
          split; [reflexivity |]. split.
          * intros m Tm. simpl. rewrite lookup_insert_ne by congruence. auto.
          * intros m. simpl. destruct (String.eqb_spec x m) as [-> | Hne].
            -- now rewrite lookup_insert_eq, Tx.
            -- now rewrite lookup_insert_ne. }
    destruct (IH self1 Htog1) as (self' & E & Hi' & Hr' & Hm').
    exists self'. cbn [handle_modifier_events]. rewrite E1. simpl.
    split; [exact E |]. split; [congruence |]. split; [congruence |].
    intros m. rewrite (Hm' m), (Hm m). destruct ev as [x | x].
    + rewrite downs_cons_down. cbn [last_state].
      destruct (String.eqb x m) eqn:Exm; [| reflexivity].
      destruct (is_toggle m); [| reflexivity].
      destruct (modifiers self !! m) as [b|]; simpl; [| reflexivity].
      rewrite Nat.odd_succ, <- Nat.negb_odd. f_equal.
      now destruct b, (Nat.odd (downs m evs)).
    + rewrite downs_cons_up. cbn [last_state].
      destruct (String.eqb x m), (is_toggle m); reflexivity.
Qed.

(** X14: starting from a table that has caps lock and num lock (as the
    one [__init__] builds), no sequence of modifier notifications makes
    a handler raise, whatever key names the backend reports; and a toggle
    ends up flipped once for each time it went down: key-up
    notifications and other keys leave it alone. *)
Theorem toggle_modifiers_count_downs (self : t) (evs : list modifier_event) :
  (∀ m, is_toggle m = true → is_Some (modifiers self !! m)) →
  ∃ self',
    handle_modifier_events self evs = Ok self' ∧
    ∀ m held, is_toggle m = true → modifiers self !! m = Some held →
              modifiers self' !! m = Some (xorb held (Nat.odd (downs m evs))).
Proof.
  intros Htog.
  destruct (handle_modifier_events_spec evs self Htog) as (self' & E & _ & _ & Hm).
  exists self'. split; [exact E |].
  intros m held Tm Hheld. now rewrite (Hm m), Tm, Hheld.
Qed.

Lemma toggle_modifiers_count_downs_witness :
  ∃ self',
    handle_modifier_events initial_mediator
      [Down Key.CAPSLOCK; Up Key.CAPSLOCK; Down Key.SHIFT; Down Key.CAPSLOCK;
       Down Key.CAPSLOCK] = Ok self' ∧
    modifiers self' !! Key.CAPSLOCK = Some true.
Proof.
  destruct (toggle_modifiers_count_downs initial_mediator
              [Down Key.CAPSLOCK; Up Key.CAPSLOCK; Down Key.SHIFT; Down Key.CAPSLOCK;
               Down Key.CAPSLOCK]) as (self' & E & H).
  - intros m Tm. unfold is_toggle in Tm. apply bool_decide_eq_true in Tm.
    repeat (apply elem_of_cons in Tm as [-> | Tm]; [vm_compute; eauto |]).
    now apply elem_of_nil in Tm.
  - exists self'. split; [exact E |].
    exact (H Key.CAPSLOCK false eq_refl eq_refl).
Defined.

(** X15: a modifier other than the two toggles is held after a sequence
    of notifications exactly if the last notification about it was a
    key-down; without any, it is as before. *)
Theorem momentary_modifiers_follow_last (self : t) (evs : list modifier_event) :
  (∀ m, is_toggle m = true → is_Some (modifiers self !! m)) →
  ∃ self',
    handle_modifier_events self evs = Ok self' ∧
    ∀ m, is_toggle m = false →
         modifiers self' !! m = last_state m (modifiers self !! m) evs.
Proof.
  intros Htog.
  destruct (handle_modifier_events_spec evs self Htog) as (self' & E & _ & _ & Hm).
  exists self'. split; [exact E |].
  intros m Tm. now rewrite (Hm m), Tm.
Qed.

Lemma momentary_modifiers_follow_last_witness :
  ∃ self',
    handle_modifier_events initial_mediator
      [Down Key.SHIFT; Down Key.CONTROL; Up Key.SHIFT] = Ok self' ∧
    modifiers self' !! Key.SHIFT = Some false ∧
    modifiers self' !! Key.CONTROL = Some true.
Proof.
  destruct (momentary_modifiers_follow_last initial_mediator
              [Down Key.SHIFT; Down Key.CONTROL; Up Key.SHIFT]) as (self' & E & H).
  - intros m Tm. unfold is_toggle in Tm. apply bool_decide_eq_true in Tm.
    repeat (apply elem_of_cons in Tm as [-> | Tm]; [vm_compute; eauto |]).
    now apply elem_of_nil in Tm.
  - exists self'. split; [exact E |]. split.
    + exact (H Key.SHIFT eq_refl).
    + exact (H Key.CONTROL eq_refl).
Defined.

End ModifierTable.

(** ** Cursor positioning: the left-arrow count *)

Section CursorLefts.

Variable CURSOR_POSITION_TOKEN : string.
Hypothesis token_not_empty : CURSOR_POSITION_TOKEN ≠ EmptyString.

Lemma count_lefts_fold (sections : list string) (expansion : Expansion.t) :
  let expansion' :=
    fold_left
      (fun expansion section =>
         if negb (Key.is_key section) || Phrase.blank section
         then Expansion.set_lefts expansion
                (Expansion.lefts expansion + PyStr.len section)
         else expansion)
      sections expansion in
  Expansion.string expansion' = Expansion.string expansion ∧
  Expansion.backspaces expansion' = Expansion.backspaces expansion ∧
  Expansion.lefts expansion <= Expansion.lefts expansion' ∧
  Expansion.lefts expansion'
    <= Expansion.lefts expansion + Z.of_nat (String.length (joined sections)).
Proof.
  revert expansion. induction sections as [|section sections IH]; intros expansion.
  - simpl. repeat split; lia.
  - cbn [fold_left]. cbv zeta in *. rewrite length_joined_cons.
    destruct (negb (Key.is_key section) || Phrase.blank section).
    + destruct (IH (Expansion.set_lefts expansion
                      (Expansion.lefts expansion + PyStr.len section)))
        as (E1 & E2 & L1 & L2).
      rewrite E1, E2. simpl in *. unfold PyStr.len in *. repeat split; lia.
    + destruct (IH expansion) as (E1 & E2 & L1 & L2).
      rewrite E1, E2. repeat split; lia.
Qed.

(** X16: for an expansion whose string holds the cursor marker once,
    [parsePositionTokens] removes the marker and keeps the backspace
    count; when a navigation key name occurs anywhere in the string the
    left-arrow count is set to 0; otherwise it grows by at most the length
    of the text after the marker, and by exactly that length when this
    text has no ["<"] and is no key name. *)
Theorem parsePositionTokens_lefts (expansion : Expansion.t) :
  PyStr.count (Expansion.string expansion) CURSOR_POSITION_TOKEN = 1%nat →
  ∃ firstpart secondpart expansion',
    Expansion.string expansion = firstpart +:+ CURSOR_POSITION_TOKEN +:+ secondpart ∧
    Phrase.parsePositionTokens CURSOR_POSITION_TOKEN expansion = Ok expansion' ∧
    Expansion.string expansion' = firstpart +:+ secondpart ∧
    Expansion.backspaces expansion' = Expansion.backspaces expansion ∧
    (existsb (fun key => PyStr.contains (Expansion.string expansion) key)
             NAVIGATION_KEYS = true →
     Expansion.lefts expansion' = 0) ∧
    (existsb (fun key => PyStr.contains (Expansion.string expansion) key)
             NAVIGATION_KEYS = false →
     Expansion.lefts expansion <= Expansion.lefts expansion'
       <= Expansion.lefts expansion + PyStr.len secondpart ∧
     (no_opening_angle secondpart = true → Key.is_key secondpart = false →
      Expansion.lefts expansion' = Expansion.lefts expansion + PyStr.len secondpart)).
Proof.
  intros Hn. unfold Phrase.parsePositionTokens.
  remember (existsb (fun key => PyStr.contains (Expansion.string expansion) key)
                    NAVIGATION_KEYS) as nav eqn:Hnav. clear Hnav.
  rewrite (contains_count _ token_not_empty), Hn. simpl.
  assert (PyStr.split (Expansion.string expansion) CURSOR_POSITION_TOKEN
          = Ok (PyStr.split_fuel (String.length (Expansion.string expansion))
                  CURSOR_POSITION_TOKEN (Expansion.string expansion))) as ->.
  { unfold PyStr.split. destruct CURSOR_POSITION_TOKEN; [congruence | reflexivity]. }
  simpl. unfold PyStr.count in Hn.
  destruct (String.length (Expansion.string expansion)) as [|fuel]; [discriminate |].
  simpl in *.
  destruct (PyStr.find_split CURSOR_POSITION_TOKEN (Expansion.string expansion))
    as [[b a]|] eqn:E; [| discriminate].
  injection Hn as Hn. rewrite (split_fuel_no_more _ _ _ Hn).
  exists b, a. eexists. split; [now apply find_split_sound |].
  split; [reflexivity |]. simpl. split; [reflexivity |].
  destruct nav; simpl.
  - split; [reflexivity |]. split; [intros _; reflexivity | discriminate].
  - unfold Phrase.count_lefts.
    destruct (count_lefts_fold (KEY_SPLIT_RE.split a) expansion) as (_ & E2 & L1 & L2).
    cbv zeta in *. rewrite key_split_joined in L2.
    split; [exact E2 |]. split; [discriminate |]. intros _. split.
    + split; [exact L1 | exact L2].
    + intros Hplain Hkey. rewrite (key_split_plain _ Hplain). simpl. now rewrite Hkey.
Qed.

End CursorLefts.

Lemma parsePositionTokens_lefts_witness :
  ∃ expansion',
    Phrase.parsePositionTokens "%|" (Expansion.init "Dear %|, bye")
      = Ok expansion' ∧
    Expansion.string expansion' = "Dear , bye" ∧ Expansion.lefts expansion' = 5.
Proof.
  destruct (parsePositionTokens_lefts "%|" ltac:(discriminate)
              (Expansion.init "Dear %|, bye") eq_refl)
    as (f & s & e' & Hs & He & Hstr & _ & _ & Hcount).
  exists e'. split; [exact He |].
  assert (e' = Expansion.mk "Dear , bye" 5 0) as ->.
  { vm_compute in He. now injection He as <-. }
  split; reflexivity.
Defined.

(** ** Editing the tree *)

Section TreeEdit.

Import FolderEdit.

Lemma list_remove_last (x : ref) (l : list ref) :
  x ∉ l → list_remove x (l ++ [x]) = Ok l.
Proof.
  induction l as [|y l IH]; intros Hx; simpl.
  - now rewrite bool_decide_eq_true_2.
  - apply not_elem_of_cons in Hx as [Hne Hx].
    rewrite bool_decide_eq_false_2 by congruence. now rewrite (IH Hx).
Qed.

Lemma set_items_set_items (f : FolderObj.t) (l k : list ref) :
  set_items (set_items f l) k = set_items f k.
Proof. reflexivity. Qed.

(** X17: adding an item to a folder that does not list it and removing
    it again restores the folder's list of items, but not the item: its
    [parent] still names the folder.  Nothing else changes. *)
Theorem add_then_remove_item (h : gmap ref obj) (self item : ref)
    (f : FolderObj.t) (o : obj) :
  h !! self = Some (OFolder f) → h !! item = Some o →
  item ∉ FolderObj.items f →
  ∃ h1,
    add_item h self item = Ok h1 ∧
    remove_item h1 self item = Ok (<[item := set_parent o (Some self)]> h).
Proof.
  intros Hs Hi Hnin. unfold add_item, remove_item, Folder.get, deref.
  rewrite Hs, Hi. simpl.
  destruct (decide (item = self)) as [-> | Hne].
  - rewrite Hs in Hi. injection Hi as <-.
    rewrite lookup_insert_eq. simpl. eexists. split; [reflexivity |].
    rewrite lookup_insert_eq. simpl. rewrite (list_remove_last _ _ Hnin). simpl.
    now rewrite !insert_insert_eq.
  - rewrite lookup_insert_ne by exact Hne. rewrite Hs. simpl.
    eexists. split; [reflexivity |].
    rewrite lookup_insert_eq. simpl. rewrite (list_remove_last _ _ Hnin). simpl.
    rewrite insert_insert_eq. f_equal.
    apply insert_id. rewrite lookup_insert_ne by congruence.
    rewrite Hs. now destruct f.
Qed.

Lemma add_then_remove_item_witness :
  ∃ h1 h2,
    add_item (sample_tree (abbreviation_config "btw") false false) 0%nat 2%nat = Ok h1 ∧
    remove_item h1 0%nat 2%nat = Ok h2 ∧
    items_of h2 0%nat = [] ∧
    leaf_parent <$> (h2 !! 2%nat) = Some (Some 0%nat).
Proof.
  destruct (add_then_remove_item
              (sample_tree (abbreviation_config "btw") false false) 0%nat 2%nat
              (FolderObj.mk (abbreviation_config "") no_hotkey "root" [] [] [] 0 false
                 None)
              (phrase "by the way" "by the way" (abbreviation_config "btw")
                 [ABBREVIATION] false false (Some 1%nat)))
    as (h1 & Hadd & Hrem); [reflexivity | reflexivity | apply not_elem_of_nil |].
  exists h1. eexists. split; [exact Hadd |]. split; [exact Hrem |].
  split; reflexivity.
Defined.

(** X18: an item removed from a folder that does not list it is an
    error ([ValueError]) and not a silent no-op. *)
Theorem remove_item_absent (h : gmap ref obj) (self item : ref) (f : FolderObj.t) :
  h !! self = Some (OFolder f) → item ∉ FolderObj.items f →
  remove_item h self item = Raise ValueError.
Proof.
  intros Hs Hnin. unfold remove_item, Folder.get. rewrite Hs. simpl.
  assert (list_remove item (FolderObj.items f) = Raise ValueError) as ->; [| reflexivity].
  induction (FolderObj.items f) as [|y l IH]; [reflexivity |]. simpl.
  apply not_elem_of_cons in Hnin as [Hne Hnin].
  rewrite bool_decide_eq_false_2 by congruence. now rewrite (IH Hnin).
Qed.

Lemma remove_item_absent_witness :
  remove_item (sample_tree (abbreviation_config "btw") false false) 0%nat 2%nat
    = Raise ValueError.
Proof.
  apply (remove_item_absent _ 0%nat 2%nat
           (FolderObj.mk (abbreviation_config "") no_hotkey "root" [] [] [] 0 false
              None)); [reflexivity | apply not_elem_of_nil].
Defined.

(** X19: after [add_item] the folder lists the item last, the item's
    [parent] is the folder, and for a phrase or script in a well-formed
    tree the chain of ancestors of the item is the folder followed by the
    folder's own ancestors: builds on the item count towards all of them. *)
Theorem add_item_ancestors (h : gmap ref obj) (self item : ref) (f : FolderObj.t)
    (o : obj) (chain : list ref) :
  h !! self = Some (OFolder f) → h !! item = Some o → is_leaf o = true →
  ancestors h (Some self) chain →
  ∃ h1 o1,
    add_item h self item = Ok h1 ∧
    h1 !! item = Some o1 ∧ is_leaf o1 = true ∧
    items_of h1 self = (FolderObj.items f ++ [item])%list ∧
    ancestors h1 (leaf_parent o1) chain.
Proof.
  intros Hs Hi Hleaf Hanc.
  assert (item ≠ self) as Hne by (intros ->; rewrite Hs in Hi; injection Hi as <-;
                                  discriminate).
  unfold add_item, Folder.get, deref. rewrite Hs, Hi. simpl.
  rewrite lookup_insert_ne by exact Hne. rewrite Hs. simpl.
  eexists. exists (set_parent o (Some self)).
  split; [reflexivity |].
  split; [rewrite lookup_insert_ne by congruence; apply lookup_insert_eq |].
  split; [now destruct o |].
  split; [unfold items_of; now rewrite lookup_insert_eq |].
  assert (leaf_parent (set_parent o (Some self)) = Some self) as -> by now destruct o.
  eapply ancestors_ext; [| exact Hanc].
  intros r. unfold folder_parent.
  destruct (decide (r = self)) as [-> | Hrs].
  - now rewrite lookup_insert_eq, Hs.
  - rewrite lookup_insert_ne by congruence.
    destruct (decide (r = item)) as [-> | Hri].
    + rewrite lookup_insert_eq, Hi. now destruct o.
    + now rewrite lookup_insert_ne by congruence.
Qed.

Lemma add_item_ancestors_witness :
  ∃ h1 o1,
    add_item (sample_tree (abbreviation_config "btw") false false) 0%nat 3%nat
      = Ok h1 ∧
    h1 !! 3%nat = Some o1 ∧
    items_of h1 0%nat = [3%nat] ∧
    ancestors h1 (leaf_parent o1) [0%nat].
Proof.
  destruct (add_item_ancestors
              (sample_tree (abbreviation_config "btw") false false) 0%nat 3%nat
              (FolderObj.mk (abbreviation_config "") no_hotkey "root" [] [] [] 0 false
                 None)
              (script "stamp" "pass" (abbreviation_config "btw") [ABBREVIATION] false
                 (Some 1%nat))
              [0%nat])
    as (h1 & o1 & Hadd & Ho & _ & Hitems & Hanc);
    [reflexivity | reflexivity | reflexivity | |].
  - apply ancestors_step with None; [reflexivity | constructor].
  - exists h1, o1. auto.
Defined.

End TreeEdit.

(** ** The dispatcher: hot keys and key presses *)

Section Dispatch.

Import IoMediator Dispatcher.

Variable KeyCode : Type.
Variable lookup_string : KeyCode → bool → bool → bool → string.

(** X20: with the seven modifiers in the table, an entry of the queue is
    always dispatched; it is a hot key exactly if ctrl, alt or super is
    held (shift alone gives a key press).  A hot key is looked up
    unshifted and comes with the held keys among alt, ctrl, shift and
    super, in the order [set_hotkey] stores them; alt_gr and the two
    locks are never among them.  A key press is looked up shifted if
    exactly one of caps lock and shift is on. *)
Theorem run_entry_classifies (self : t) (keyCode : KeyCode) (windowName : string)
    (ctrl alt altGr shift super capsLock numLock : bool) :
  modifiers self !! Key.CONTROL = Some ctrl →
  modifiers self !! Key.ALT = Some alt →
  modifiers self !! Key.ALT_GR = Some altGr →
  modifiers self !! Key.SHIFT = Some shift →
  modifiers self !! Key.SUPER = Some super →
  modifiers self !! Key.CAPSLOCK = Some capsLock →
  modifiers self !! Key.NUMLOCK = Some numLock →
  run_entry KeyCode lookup_string self keyCode windowName =
    Ok (if ctrl || alt || super
        then handle_hotkey (lookup_string keyCode false numLock altGr)
                           (held_in_order alt ctrl shift super) windowName
        else handle_keypress (lookup_string keyCode (xorb capsLock shift) numLock altGr)
                             windowName) ∧
  AbstractHotkey.sort (held_in_order alt ctrl shift super)
    = held_in_order alt ctrl shift super.
Proof.
  intros Hc Ha Hg Hs Hu Hl Hn. split.
  - unfold run_entry, __getNonPrintingModifiersOn, held, NON_PRINTING_MODIFIERS.
    cbn [fold_left bind]. rewrite Hn, Hc, Ha, Hu, Hs, Hl, Hg. cbn [bind].
    destruct ctrl, alt, super, shift; reflexivity.
  - destruct ctrl, alt, super, shift; reflexivity.
Qed.

End Dispatch.

Lemma run_entry_classifies_witness :
  Dispatcher.run_entry nat (fun _ shifted _ _ => if shifted then "A" else "a")
    (IoMediator.mk (<[Key.SHIFT := true]> (<[Key.CONTROL := true]>
                      IoMediator.initial_modifiers)) [] []) 38%nat "editor"
  = Ok (Dispatcher.handle_hotkey "a" [Key.CONTROL; Key.SHIFT] "editor").
Proof.
  exact (proj1 (run_entry_classifies nat (fun _ shifted _ _ => if shifted then "A" else "a")
                  (IoMediator.mk (<[Key.SHIFT := true]> (<[Key.CONTROL := true]>
                                    IoMediator.initial_modifiers)) [] [])
                  38%nat "editor" true false false true false false true
                  eq_refl eq_refl eq_refl eq_refl eq_refl eq_refl eq_refl)).
Defined.
